(** * Concrete-strength SVM regression notebook: the [LogTransformer] adapter,
      the train/test split, the randomized search and the evaluator.

    The development embeds [svm_regressor.ipynb].  The notebook's own code is
    the class [LogTransformer] and the literal configuration of the library
    calls around it; the library calls themselves (scikit-learn, NumPy, SciPy)
    are modelled by their documented behaviour, each next to the place where
    the notebook calls it.

    Numbers.  A float64 is modelled as a real number or one of the three IEEE
    special values.  The logarithm and the exponential are the library's
    rounded functions, kept abstract; the theorems that depend on how
    accurate they are say so.  The other arithmetic on finite values (sums,
    squares, means, square roots) is exact real arithmetic, without rounding,
    overflow or underflow. *)

From Stdlib Require Import String.
From Stdlib Require Import Reals Lra Lia Bool Arith List Permutation.
Import ListNotations.

Open Scope R_scope.

(* ================================================================== *)
(** * Values and arrays *)

Module Np.

(** A float64: a finite value, or [inf], [-inf], [nan]. *)
Inductive float64 : Type :=
| Finite (r : R)
| PosInf
| NegInf
| NaN.

(** [np.isfinite] on one element. *)
Definition isfinite (v : float64) : bool :=
  match v with
  | Finite _ => true
  | _ => false
  end.

(** The logarithm and the exponential of a float64 are computed in floating
    point by the library, and their results are rounded to float64.  They
    are kept abstract: [log_fl x] is what [np.log] returns on a positive
    number [x], a finite number; [exp_fl y] is what [np.exp] returns on a
    number [y]: a finite number, or [inf] when it overflows. *)
Class Libm : Type := {
  log_fl : R -> R;
  exp_fl : R -> float64
}.

(** The accuracy of the two functions at one argument: the result is within
    the relative error [u] of the logarithm, of the exponential (and is then
    a finite number). *)
Definition log_accurate {M : Libm} (u x : R) : Prop :=
  Rabs (log_fl x - ln x) <= u * Rabs (ln x).

Definition exp_accurate {M : Libm} (u y : R) : Prop :=
  exists z,
    exp_fl y = Finite z /\
    Rabs (z - Rtrigo_def.exp y) <= u * Rtrigo_def.exp y.

Section Ufuncs.

Context {M : Libm}.

(** [np.log] on one element: the rounded logarithm of a positive number,
    [log(0) = -inf], and the logarithm of a negative number (and of [-inf]
    and [nan]) is [nan]; NumPy warns and does not raise. *)
Definition log (v : float64) : float64 :=
  match v with
  | Finite r =>
      if Rlt_dec 0 r then Finite (log_fl r)
      else if Req_dec_T r 0 then NegInf
      else NaN
  | PosInf => PosInf
  | NegInf => NaN
  | NaN => NaN
  end.

(** [np.exp] on one element: the rounded exponential of a number,
    [exp(-inf) = 0], [exp(inf) = inf]. *)
Definition exp (v : float64) : float64 :=
  match v with
  | Finite r => exp_fl r
  | PosInf => PosInf
  | NegInf => Finite 0
  | NaN => NaN
  end.

End Ufuncs.

(** [np.sqrt] on one element: the square root of a negative number is
    [nan]. *)
Definition sqrt (v : float64) : float64 :=
  match v with
  | Finite r => if Rlt_dec r 0 then NaN else Finite (R_sqrt.sqrt r)
  | PosInf => PosInf
  | NegInf => NaN
  | NaN => NaN
  end.

(** A two-dimensional [ndarray]: [shape = (length rows, shape1)].  The column
    count is a field of its own, since an array with no row still has one. *)
Record ndarray : Type := mk_ndarray {
  shape1 : nat;
  rows : list (list float64)
}.

Definition shape0 (X : ndarray) : nat := length (rows X).

(** Every row of a NumPy array has [shape1] elements. *)
Definition rectangular (X : ndarray) : Prop :=
  Forall (fun row => length row = shape1 X) (rows X).

(** [X[i, j]], when it exists. *)
Definition item (X : ndarray) (i j : nat) : option float64 :=
  match nth_error (rows X) i with
  | Some row => nth_error row j
  | None => None
  end.

(** A universal function applied elementwise keeps the shape. *)
Definition ufunc (f : float64 -> float64) (X : ndarray) : ndarray :=
  {| shape1 := shape1 X; rows := map (map f) (rows X) |}.

Definition all_finite (X : ndarray) : bool :=
  forallb (forallb isfinite) (rows X).

(** Every element is a finite number greater than zero. *)
Definition positive (v : float64) : Prop :=
  match v with
  | Finite r => 0 < r
  | _ => False
  end.

Definition all_positive (X : ndarray) : Prop :=
  Forall (Forall positive) (rows X).

(** [np.allclose(A, B, rtol, atol)] on finite values:
    [|a - b| <= atol + rtol * |b|] elementwise, special values only
    matching themselves ([nan] matching nothing). *)
Definition isclose (rtol atol : R) (a b : float64) : Prop :=
  match a, b with
  | Finite x, Finite y => Rabs (x - y) <= atol + rtol * Rabs y
  | PosInf, PosInf => True
  | NegInf, NegInf => True
  | _, _ => False
  end.

Definition allclose (rtol atol : R) (A B : ndarray) : Prop :=
  shape1 A = shape1 B /\
  Forall2 (Forall2 (isclose rtol atol)) (rows A) (rows B).

(** [np.isnan] on one element. *)
Definition isnan (v : float64) : bool :=
  match v with
  | NaN => true
  | _ => false
  end.

(** The sum of two float64 on the special values: [nan] spreads, and the
    two infinities do not add up. *)
Definition add64 (a b : float64) : float64 :=
  match a, b with
  | NaN, _ | _, NaN => NaN
  | PosInf, NegInf | NegInf, PosInf => NaN
  | PosInf, _ | _, PosInf => PosInf
  | NegInf, _ | _, NegInf => NegInf
  | Finite x, Finite y => Finite (x + y)
  end.

(** [a < b] as IEEE comparison has it: false as soon as one side is [nan]. *)
Definition less (a b : float64) : bool :=
  match a, b with
  | NaN, _ | _, NaN => false
  | _, NegInf => false
  | NegInf, _ => true
  | PosInf, _ => false
  | _, PosInf => true
  | Finite x, Finite y => if Rlt_dec x y then true else false
  end.

(** [np.average] of a one-dimensional array: the sum over the length; [nan]
    on an empty array. *)
Definition average (a : list float64) : float64 :=
  match a with
  | [] => NaN
  | _ =>
      match fold_right add64 (Finite 0) a with
      | Finite s => Finite (s / INR (length a))
      | v => v
      end
  end.

(** [np.nanmin]: the least element that is not [nan]; [nan] when there is
    none. *)
Definition nanmin (a : list float64) : float64 :=
  fold_right
    (fun v m =>
       if isnan v then m
       else if isnan m then v
       else if less v m then v else m)
    NaN a.

(** [np.finfo(np.float64).max] *)
Definition float_max : R := (2 - / 2 ^ 52) * 2 ^ 1023.

(** [np.nan_to_num(x, nan=nan)] on one element: [nan] becomes the given
    value, an infinity the largest finite float64 of its sign. *)
Definition nan_to_num (nan : float64) (v : float64) : float64 :=
  match v with
  | NaN => nan
  | PosInf => Finite float_max
  | NegInf => Finite (- float_max)
  | Finite r => Finite r
  end.

(** [np.argmax]: the position of the first greatest element. *)
Fixpoint argmax_from (i best_i : nat) (best : float64) (a : list float64)
  : nat :=
  match a with
  | [] => best_i
  | v :: a' =>
      if less best v then argmax_from (S i) i v a'
      else argmax_from (S i) best_i best a'
  end.

Definition argmax (a : list float64) : nat :=
  match a with
  | [] => 0%nat
  | v :: a' => argmax_from 1 0 v a'
  end.

End Np.

Import Np.

(** Sum and arithmetic mean of finite numbers. *)
Definition Rsum (l : list R) : R := fold_right Rplus 0 l.

Definition Rmean (l : list R) : R := Rsum l / INR (length l).

(** A pandas [DataFrame]: the column labels and the rows of values.
    [X.shape[1]] is the number of column labels. *)
Record DataFrame : Type := mk_DataFrame {
  columns : list string;
  values : list (list float64)
}.

Definition df_shape1 (X : DataFrame) : nat := length (columns X).

Definition to_numpy (X : DataFrame) : ndarray :=
  {| shape1 := df_shape1 X; rows := values X |}.

(* ================================================================== *)
(** * Exceptions *)

Inductive exception : Type :=
| NotFittedError
| ValueError
| AssertionError
| AttributeError
| IndexError.

Inductive result (A : Type) : Type :=
| Ok (a : A)
| Raise (e : exception).

Arguments Ok {A} a.
Arguments Raise {A} e.

Definition bind {A B : Type} (m : result A) (k : A -> result B) : result B :=
  match m with
  | Ok a => k a
  | Raise e => Raise e
  end.

Notation "x <- m ;; k" := (bind m (fun x => k))
  (at level 61, m at next level, right associativity).

Definition raises {A : Type} (m : result A) : Prop :=
  exists e, m = Raise e.

(* ================================================================== *)
(** * The Invertible Transform Adapter: [class LogTransformer] *)

(** The instance attributes.  [__init__] sets none; [fit] sets both. *)
Record LogTransformer : Type := mk_LogTransformer {
  feature_names_ : option (list string);
  n_features_in_ : option nat
}.

(** [def __init__(self): pass] *)
Definition __init__ : LogTransformer :=
  {| feature_names_ := None; n_features_in_ := None |}.

(** [fit]: stores [X.columns] and [X.shape[1]], returns [self]. *)
Definition fit (self : LogTransformer) (X : DataFrame) : LogTransformer :=
  {| feature_names_ := Some (columns X);
     n_features_in_ := Some (df_shape1 X) |}.

(** [sklearn.utils.validation.check_is_fitted(self)]: the estimator counts as
    fitted when it has an attribute whose name ends with an underscore. *)
Definition is_fitted (self : LogTransformer) : bool :=
  match feature_names_ self, n_features_in_ self with
  | None, None => false
  | _, _ => true
  end.

Definition check_is_fitted (self : LogTransformer) : result unit :=
  if is_fitted self then Ok tt else Raise NotFittedError.

(** [sklearn.utils.validation.check_array(X)] with its defaults on a
    two-dimensional numeric input: [ValueError] when an element is [nan] or
    infinite, when there is no row ([ensure_min_samples=1]) and when there is
    no column ([ensure_min_features=1]); otherwise the array. *)
Definition check_array (X : ndarray) : result ndarray :=
  if negb (all_finite X) then Raise ValueError
  else if (shape0 X <? 1)%nat then Raise ValueError
  else if (shape1 X <? 1)%nat then Raise ValueError
  else Ok X.

(** Reading an attribute that was never set raises [AttributeError]. *)
Definition getattr {A : Type} (a : option A) : result A :=
  match a with
  | Some v => Ok v
  | None => Raise AttributeError
  end.

Section Transformer.

Context {M : Libm}.

(** [transform]:
<<
        check_is_fitted(self)
        X = check_array(X)
        assert self.n_features_in_ == X.shape[1]
        return np.log(X)
>> *)
Definition transform (self : LogTransformer) (X : ndarray) : result ndarray :=
  _ <- check_is_fitted self ;;
  X <- check_array X ;;
  n <- getattr (n_features_in_ self) ;;
  if (n =? shape1 X)%nat then Ok (ufunc Np.log X) else Raise AssertionError.

(** [get_feature_names_out(self, names=None)]: [return self.feature_names_]. *)
Definition get_feature_names_out (self : LogTransformer)
  (names : option (list string)) : result (list string) :=
  getattr (feature_names_ self).

(** [inverse_transform]: [return np.exp(X)], nothing else. *)
Definition inverse_transform (self : LogTransformer) (X : ndarray) : ndarray :=
  ufunc Np.exp X.

(** For which elements the round trip through [np.log] and [np.exp] is
    taken with accurate results: at a positive number [x], the logarithm is
    accurate at [x] and the exponential at the logarithm returned. *)
Definition round_trip_accurate (u : R) (v : float64) : Prop :=
  match v with
  | Finite x => log_accurate u x /\ exp_accurate u (log_fl x)
  | _ => True
  end.

End Transformer.

(* ================================================================== *)
(** * The configuration space of the search: [param_distributions] *)

(** The values [SVR] takes for [kernel] and for [gamma]. *)
Module SVR.

Inductive kernel : Type := linear | poly | rbf | sigmoid | precomputed.
Inductive gamma : Type := scale | auto | value (g : R).

End SVR.

(** A candidate configuration: one value per key of [param_distributions]. *)
Record params : Type := mk_params {
  svm_reg__C : R;
  svm_reg__gamma : SVR.gamma;
  svm_reg__kernel : SVR.kernel
}.

(** [scipy.stats.uniform(loc, scale)], frozen. *)
Record uniform : Type := mk_uniform {
  loc : R;
  scale : R
}.

Definition c_lower_bound : R := 1 / 100.
Definition c_upper_bound : R := 15.

(** The dictionary [param_distributions]: a list of values or a
    distribution under each key. *)
Record distributions : Type := mk_distributions {
  dist_kernel : list SVR.kernel;
  dist_gamma : list SVR.gamma;
  dist_C : uniform
}.

Definition param_distributions : distributions :=
  {| dist_kernel := [SVR.rbf; SVR.linear];
     dist_gamma := [SVR.auto; SVR.scale];
     dist_C := {| loc := c_lower_bound;
                  scale := c_upper_bound - c_lower_bound |} |}.

(** The configuration space the notebook describes: the kernel one of
    [rbf] and [linear], [gamma] one of [auto] and [scale], [C] from 0.01 up
    to, not including, 15.0. *)
Definition in_space (p : params) : Prop :=
  In (svm_reg__kernel p) [SVR.rbf; SVR.linear] /\
  In (svm_reg__gamma p) [SVR.auto; SVR.scale] /\
  1 / 100 <= svm_reg__C p /\ svm_reg__C p < 15.

(* ================================================================== *)
(** * Pseudo-random numbers: [numpy.random.RandomState] *)

(** The generator is the library's (a Mersenne Twister); the notebook only
    chooses its seed.  It is kept abstract: a state type, the state a seed
    gives, and the three draws the library code below makes, each returning
    the value drawn and the next state. *)
Class RandomState : Type := {
  rng : Type;
  (** [RandomState(seed)] *)
  seeded : nat -> rng;
  (** [rng.permutation(n)] *)
  permutation : rng -> nat -> list nat * rng;
  (** [rng.uniform(0.0, 1.0)] *)
  uniform01 : rng -> R * rng;
  (** [rng.randint(n)] *)
  randint : rng -> nat -> nat * rng
}.

(** What NumPy documents of the draws: a permutation of [range(n)], a number
    in the half-open interval from 0 to 1, an integer below [n]. *)
Class RandomStateSpec (RS : RandomState) : Prop := {
  permutation_spec :
    forall s n, Permutation (fst (permutation s n)) (seq 0 n);
  uniform01_spec :
    forall s, 0 <= fst (uniform01 s) < 1;
  randint_spec :
    forall s n, (0 < n)%nat -> (fst (randint s n) < n)%nat
}.

Section Randomized.

Context {RS : RandomState}.

(** [sklearn.utils.check_random_state]: an integer seeds a generator of its
    own; [None] is the process-wide generator [np.random]. *)
Definition check_random_state (random_state : option nat) (global : rng)
  : rng :=
  match random_state with
  | Some k => seeded k
  | None => global
  end.

(* ---------------------------------------------------------------- *)
(** ** Dataset Splitter: [train_test_split] *)

(** [ceil(test_size * n_samples)] for the fraction [test_size = num / den].
    (For 0.2 the float64 product rounds up to the same integer as the exact
    fifth: a multiple of five gives its fifth exactly, any other count a
    product strictly between two integers.) *)
Definition ceil_fraction (num den n : nat) : nat :=
  ((n * num + (den - 1)) / den)%nat.

(** [_validate_shuffle_split] for a float [test_size] and no [train_size]:
    [ValueError] unless [0 < test_size < 1]; then
    [n_test = ceil(test_size * n_samples)], [n_train = n_samples - n_test],
    and a [ValueError] when the training set would be empty. *)
Definition _validate_shuffle_split (n_samples num den : nat)
  : result (nat * nat) :=
  if ((num =? 0) || (den <=? num))%nat then Raise ValueError
  else
    let n_test := ceil_fraction num den n_samples in
    let n_train := (n_samples - n_test)%nat in
    if (n_train =? 0)%nat then Raise ValueError else Ok (n_train, n_test).

(** [ShuffleSplit]: one permutation of the row positions; its first [n_test]
    entries are the test positions, the next [n_train] the training ones. *)
Definition shuffle_split (s : rng) (n_samples n_train n_test : nat)
  : list nat * list nat :=
  let p := fst (permutation s n_samples) in
  let ind_test := firstn n_test p in
  let ind_train := firstn n_train (skipn n_test p) in
  (ind_train, ind_test).

(** The elements of a list at the given positions; [None] when a position is
    out of range. *)
Fixpoint take {A : Type} (l : list A) (idx : list nat) : option (list A) :=
  match idx with
  | [] => Some []
  | i :: idx' =>
      match nth_error l i, take l idx' with
      | Some a, Some r => Some (a :: r)
      | _, _ => None
      end
  end.

(** [df.iloc[idx]]: the rows at the given positions, same columns;
    [IndexError] when a position is out of range. *)
Definition iloc (df : DataFrame) (idx : list nat) : result DataFrame :=
  match take (values df) idx with
  | Some r => Ok {| columns := columns df; values := r |}
  | None => Raise IndexError
  end.

(** [train_test_split(df, test_size=num/den, random_state=random_state)]. *)
Definition train_test_split (global : rng) (df : DataFrame) (num den : nat)
  (random_state : option nat) : result (DataFrame * DataFrame) :=
  let n_samples := length (values df) in
  sizes <- _validate_shuffle_split n_samples num den ;;
  let s := check_random_state random_state global in
  let ind := shuffle_split s n_samples (fst sizes) (snd sizes) in
  train <- iloc df (fst ind) ;;
  test <- iloc df (snd ind) ;;
  Ok (train, test).

(** The notebook's call:
    [train_test_split(concrete_df, test_size=0.2, random_state=42)]. *)
Definition split_concrete (global : rng) (concrete_df : DataFrame)
  : result (DataFrame * DataFrame) :=
  train_test_split global concrete_df 1 5 (Some 42%nat).

(* ---------------------------------------------------------------- *)
(** ** Hyperparameter Search: [param_distributions], [RandomizedSearchCV] *)

(** [uniform.rvs]: a draw from the unit interval, times [scale], plus [loc]. *)
Definition rvs (d : uniform) (s : rng) : R * rng :=
  let (u, s') := uniform01 s in (u * scale d + loc d, s').

(** [v[rng.randint(len(v))]] *)
Definition choice {A : Type} (v : list A) (s : rng) : result A * rng :=
  let (i, s') := randint s (length v) in
  (match nth_error v i with
   | Some a => Ok a
   | None => Raise IndexError
   end, s').

(** One pass of the loop of [ParameterSampler.__iter__]:
<<
        dist = rng.choice(self.param_distributions)
        items = sorted(dist.items())
        for k, v in items:
            if hasattr(v, "rvs"): params[k] = v.rvs(random_state=rng)
            else:                 params[k] = v[rng.randint(len(v))]
>>
    The sorted keys are [svm_reg__C], [svm_reg__gamma], [svm_reg__kernel]. *)
Definition sample_params (ds : list distributions) (s : rng)
  : result params * rng :=
  let (dist, s0) := choice ds s in
  match dist with
  | Raise e => (Raise e, s0)
  | Ok dist =>
      let (c, s1) := rvs (dist_C dist) s0 in
      let (g, s2) := choice (dist_gamma dist) s1 in
      let (k, s3) := choice (dist_kernel dist) s2 in
      (g <- g ;; k <- k ;;
       Ok {| svm_reg__C := c; svm_reg__gamma := g; svm_reg__kernel := k |},
       s3)
  end.

(** The loop, [n_iter] times. *)
Fixpoint sample_n (ds : list distributions) (n_iter : nat) (s : rng)
  : result (list params) :=
  match n_iter with
  | O => Ok []
  | S n =>
      let (p, s') := sample_params ds s in
      p <- p ;;
      rest <- sample_n ds n s' ;;
      Ok (p :: rest)
  end.

(** [list(ParameterSampler(d, n_iter, random_state=random_state))]; a single
    dictionary stands for the list holding it. *)
Definition ParameterSampler (d : distributions) (n_iter : nat)
  (random_state : option nat) (global : rng) : result (list params) :=
  sample_n [d] n_iter (check_random_state random_state global).

(** [KFold(n_splits)] without shuffling: consecutive blocks of positions,
    the first [n mod n_splits] one longer.  The constructor raises
    [ValueError] unless [n_splits] is at least 2, and [split] raises it when
    there are fewer samples than folds.  Each fold is (training positions,
    test positions). *)
Definition fold_sizes (n n_splits : nat) : list nat :=
  map (fun i => (n / n_splits + (if i <? n mod n_splits then 1 else 0))%nat)
      (seq 0 n_splits).

Fixpoint folds_from (n current : nat) (sizes : list nat)
  : list (list nat * list nat) :=
  match sizes with
  | [] => []
  | size :: sizes' =>
      let test := seq current size in
      let train :=
        (seq 0 current ++ seq (current + size) (n - (current + size)))%list in
      (train, test) :: folds_from n (current + size)%nat sizes'
  end.

Definition KFold (n_splits n : nat) : result (list (list nat * list nat)) :=
  if (n_splits <=? 1)%nat then Raise ValueError
  else if (n <? n_splits)%nat then Raise ValueError
  else Ok (folds_from n 0 (fold_sizes n n_splits)).

(** Labelled data: the rows of [X_train] with the entries of [y_train]. *)
Definition dataset : Type := list (list float64 * float64).

(** The part of the data a fold selects (its positions are in range). *)
Definition select (data : dataset) (idx : list nat) : dataset :=
  match take data idx with
  | Some r => r
  | None => []
  end.

(** One call of the library's [_fit_and_score]: the pipeline, with the
    candidate's parameters set, is fitted on the training part and scored on
    the test part ([neg_root_mean_squared_error]).  It is the library's work
    and is kept abstract.  [SVR.fit] draws an integer from the process-wide
    generator (the seed it hands to libsvm), so a call takes the state of
    that generator and returns the next one.  The outcome is [None] when the
    fit raised, and otherwise the score, [nan] when the scoring raised. *)
Context {estimator : Type}.
Variable fit_and_score :
  rng -> params -> dataset -> dataset -> option float64 * rng.

(** The refit: the pipeline with the best parameters fitted on all the
    training data ([refit=True]); it raises what the fit raises. *)
Variable refit : rng -> params -> dataset -> result estimator.

(** One candidate on every fold, fold after fold. *)
Fixpoint cross_validate (g : rng) (p : params) (data : dataset)
  (folds : list (list nat * list nat)) : list (option float64) * rng :=
  match folds with
  | [] => ([], g)
  | f :: folds' =>
      let (o, g1) :=
        fit_and_score g p (select data (fst f)) (select data (snd f)) in
      let (os, g2) := cross_validate g1 p data folds' in
      (o :: os, g2)
  end.

(** [evaluate_candidates]: candidate after candidate ([n_jobs=None]: in this
    process, one fit after the other). *)
Fixpoint evaluate_candidates (g : rng) (candidates : list params)
  (data : dataset) (folds : list (list nat * list nat))
  : list (list (option float64)) * rng :=
  match candidates with
  | [] => ([], g)
  | p :: candidates' =>
      let (o, g1) := cross_validate g p data folds in
      let (os, g2) := evaluate_candidates g1 candidates' data folds in
      (o :: os, g2)
  end.

Definition fit_failed (o : option float64) : bool :=
  match o with
  | None => true
  | Some _ => false
  end.

(** The score a fit counts with: [error_score=np.nan] when it failed. *)
Definition test_score (o : option float64) : float64 :=
  match o with
  | Some v => v
  | None => NaN
  end.

(** [mean_test_score] of one candidate over the folds. *)
Definition mean_test_score (o : list (option float64)) : float64 :=
  average (map test_score o).

(** [rank_test_score.argmin()]: the first candidate of rank 1.  When every
    mean is [nan] all ranks are 1; otherwise a [nan] mean counts as the
    least mean minus one, and the ranks follow the means downwards, ties
    sharing the lower rank. *)
Definition best_index_ (means : list float64) : nat :=
  if forallb isnan means then 0%nat
  else
    let min_array_means := add64 (nanmin means) (Finite (-1)) in
    argmax (map (nan_to_num min_array_means) means).

(** [RandomizedSearchCV(pipeline, param_distributions=d, n_iter=n_iter,
    cv=cv, random_state=random_state).fit(X, y)]: the triple
    ([best_params_], [best_score_], [best_estimator_]).  The folds are made
    and the candidates drawn before anything is fitted; [ValueError] when
    every fit failed (and when there was none); the refit comes last. *)
Definition RandomizedSearchCV_fit (d : distributions) (n_iter cv : nat)
  (random_state : option nat) (global : rng) (data : dataset)
  : result (params * float64 * estimator) :=
  _ <- (if (cv <=? 1)%nat then Raise ValueError else Ok tt) ;;
  candidates <- ParameterSampler d n_iter random_state global ;;
  folds <- KFold cv (length data) ;;
  let (out, g) := evaluate_candidates global candidates data folds in
  if forallb (forallb fit_failed) out then Raise ValueError
  else
    let means := map mean_test_score out in
    let i := best_index_ means in
    match nth_error candidates i, nth_error means i with
    | Some best_params_, Some best_score_ =>
        best_estimator_ <- refit g best_params_ data ;;
        Ok (best_params_, best_score_, best_estimator_)
    | _, _ => Raise IndexError
    end.

(** The notebook's search: 50 candidates, 5 folds, seed 42. *)
Definition svr_rnd_search (global : rng) (data : dataset)
  : result (params * float64 * estimator) :=
  RandomizedSearchCV_fit param_distributions 50 5 (Some 42%nat) global data.

End Randomized.

(* ================================================================== *)
(** * Evaluator *)

(** Order on float64 as IEEE comparison has it: false as soon as one side is
    [nan]. *)
Definition le64 (a b : float64) : Prop :=
  match a, b with
  | NaN, _ | _, NaN => False
  | NegInf, _ => True
  | _, PosInf => True
  | Finite x, Finite y => x <= y
  | _, _ => False
  end.

(** The quantile function of Student's t distribution, [stats.t.ppf(q, df)]
    for [0 < q < 1] and [df >= 1], is SciPy's; it is kept abstract. *)
Class StudentT : Type := {
  t_ppf : R -> nat -> R
}.

(** A quantile function is monotone, and the distribution is symmetric about
    zero: its median is 0. *)
Class StudentTSpec (T : StudentT) : Prop := {
  t_ppf_monotone :
    forall df q1 q2, (1 <= df)%nat -> 0 < q1 -> q1 <= q2 -> q2 < 1 ->
      t_ppf q1 df <= t_ppf q2 df;
  t_ppf_median :
    forall df, (1 <= df)%nat -> t_ppf (1 / 2) df = 0
}.

Section Evaluator.

Context {T : StudentT}.

Definition sq (x : R) : R := x * x.

(** [(y_pred - y_test["csMPa"]) ** 2], an array minus a series: elementwise
    when the two have one length; an array of length 1 is broadcast against
    the series; any other pair of lengths raises [ValueError]. *)
Definition squared_errors (y_pred y_test : list R) : result (list R) :=
  if (length y_pred =? length y_test)%nat
  then Ok (map (fun pa => sq (fst pa - snd pa)) (combine y_pred y_test))
  else
    match y_pred with
    | [p] => Ok (map (fun a => sq (p - a)) y_test)
    | _ => Raise ValueError
    end.

(** [mean_squared_error(y_true, y_pred, squared=False)]: [ValueError] on
    inputs of different lengths and on empty ones, else the square root of
    the mean squared difference. *)
Definition mean_squared_error (y_true y_pred : list R) : result R :=
  if negb (length y_true =? length y_pred)%nat then Raise ValueError
  else if (length y_true <? 1)%nat then Raise ValueError
  else Ok (R_sqrt.sqrt
             (Rmean (map (fun ap => sq (fst ap - snd ap))
                         (combine y_true y_pred)))).

(** The notebook's [rmse]. *)
Definition rmse (y_pred y_test : list R) : result R :=
  mean_squared_error y_test y_pred.

(** [Series.mean()]: [nan] on an empty series. *)
Definition mean (a : list R) : float64 :=
  match a with
  | [] => NaN
  | _ => Finite (Rmean a)
  end.

(** [stats.sem(a)]: the sample standard deviation with [ddof=1] over the
    square root of the length; with fewer than two values the deviation is a
    division by zero, [nan]. *)
Definition sem (a : list R) : float64 :=
  let n := length a in
  if (n <? 2)%nat then NaN
  else
    let m := Rmean a in
    let var := Rsum (map (fun x => sq (x - m)) a) / INR (n - 1) in
    Finite (R_sqrt.sqrt var / R_sqrt.sqrt (INR n)).

(** [stats.t.ppf(q, df, loc, scale)]: [nan] unless [df > 0], [scale > 0] and
    [loc] is a number; the ends of the support at [q = 0] and [q = 1]; [nan]
    for a [q] outside.  ([loc] and [scale] are a mean and a standard error
    of finite numbers: finite or [nan].) *)
Definition ppf (q : R) (df : nat) (loc scale : float64) : float64 :=
  match loc, scale with
  | Finite l, Finite s =>
      if (1 <=? df)%nat then
        if Rlt_dec 0 s then
          if Rlt_dec 0 q then
            if Rlt_dec q 1 then Finite (t_ppf q df * s + l)
            else if Req_dec_T q 1 then PosInf else NaN
          else if Req_dec_T q 0 then NegInf else NaN
        else NaN
      else NaN
  | _, _ => NaN
  end.

(** [stats.t.interval(confidence, df, loc, scale)]: the quantiles at
    [(1 - confidence) / 2] and [(1 + confidence) / 2]. *)
Definition interval (confidence : R) (df : nat) (loc scale : float64)
  : float64 * float64 :=
  (ppf ((1 - confidence) / 2) df loc scale,
   ppf ((1 + confidence) / 2) df loc scale).

Definition confidence : R := 95 / 100.

(** The notebook's [confidence_interval]: the square roots of the bounds of
    the t interval around the mean squared error.  ([len(...) - 1] is [-1]
    on an empty series and 0 here; both are rejected by [ppf].) *)
Definition confidence_interval (y_pred y_test : list R)
  : result (float64 * float64) :=
  squared_errors <- squared_errors y_pred y_test ;;
  let iv := interval confidence (length squared_errors - 1)
                     (mean squared_errors) (sem squared_errors) in
  Ok (Np.sqrt (fst iv), Np.sqrt (snd iv)).

End Evaluator.

(* ================================================================== *)
(** * Feature and target views *)

(** [label_col = "csMPa"] *)
Definition label_col : string := "csMPa"%string.

(** [col not in l], with Python's [==] on strings. *)
Definition not_in (col : string) (l : list string) : bool :=
  negb (existsb (String.eqb col) l).

(** [feature_cols = [col for col in concrete_df.columns if col != label_col]] *)
Definition feature_cols (concrete_df : DataFrame) : list string :=
  filter (fun col => negb (String.eqb col label_col)) (columns concrete_df).

(** [log_features = ["age"]] *)
Definition log_features : list string := ["age"%string].

(** [normal_features =
      [col for col in X_train.columns if col not in log_features]] *)
Definition normal_features (X_train : DataFrame) : list string :=
  filter (fun col => not_in col log_features) (columns X_train).

(** Every row of a [DataFrame] has one value per column label. *)
Definition frame_ok (df : DataFrame) : Prop :=
  Forall (fun row => length row = length (columns df)) (values df).

(** The positions at which a label occurs among column labels, counted from
    [from]. *)
Fixpoint get_locs (label : string) (cols : list string) (from : nat)
  : list nat :=
  match cols with
  | [] => []
  | c :: cols' =>
      (if String.eqb c label then [from] else [])
        ++ get_locs label cols' (S from)
  end.

(** [columns.get_loc(label)] for a label that occurs once: its position. *)
Definition index_of (cols : list string) (label : string) : nat :=
  hd 0%nat (get_locs label cols 0).

(** [df.iloc[:, idx]]: the columns at the given positions, every row kept.
    (A position is always one of a column here; outside it the model reads
    an empty label and a missing value.) *)
Definition iloc_columns (df : DataFrame) (idx : list nat) : DataFrame :=
  {| columns := map (fun j => nth j (columns df) EmptyString) idx;
     values := map (fun row => map (fun j => nth j row NaN) idx) (values df) |}.

(** The columns under the labels of a key, each label the label of one
    column: what [df[key]] is then, and what a column transformer hands to
    an entry with the columns [key]. *)
Definition columns_of (df : DataFrame) (key : list string) : DataFrame :=
  iloc_columns df (map (index_of (columns df)) key).

(** The outcome of a lookup by label: pandas raises [KeyError] naming the
    labels it did not find. *)
Inductive lookup (A : Type) : Type :=
| Found (a : A)
| KeyError (missing : list string).

Arguments Found {A} a.
Arguments KeyError {A} missing.

(** [df[key]] for a list of labels: the columns under each label of the key,
    in the order of the key; [KeyError] when a label is not a column. *)
Definition getitem (df : DataFrame) (key : list string) : lookup DataFrame :=
  match filter (fun k => not_in k (columns df)) key with
  | [] =>
      Found (iloc_columns df (flat_map (fun k => get_locs k (columns df) 0) key))
  | missing => KeyError missing
  end.

(** [df[label]] as a series, when exactly one column carries the label. *)
Definition series (df : DataFrame) (label : string)
  : option (list float64) :=
  match get_locs label (columns df) 0 with
  | [j] => Some (map (fun row => nth j row NaN) (values df))
  | _ => None
  end.

(** The notebook's views of a split:
    [X, y = set[feature_cols], set[[label_col]]]. *)
Definition X_y (concrete_df set : DataFrame) : lookup (DataFrame * DataFrame) :=
  match getitem set (feature_cols concrete_df) with
  | KeyError missing => KeyError missing
  | Found X =>
      match getitem set [label_col] with
      | KeyError missing => KeyError missing
      | Found y => Found (X, y)
      end
  end.

(** [y.values.ravel()]: the values row after row. *)
Definition ravel (y : DataFrame) : list float64 := concat (values y).

(* ================================================================== *)
(** * The preprocessing pipeline and the estimator pipeline *)

(** [TransformerMixin.fit_transform] on a [LogTransformer]:
    [return self.fit(X).transform(X)]. *)
Definition fit_transform {M : Libm} (self : LogTransformer) (X : DataFrame)
  : result ndarray :=
  transform (fit self X) (to_numpy X).

(** [StandardScaler.fit_transform] is scikit-learn's; it is kept abstract. *)
Class StandardScaler : Type := {
  scaler_fit_transform : DataFrame -> result ndarray
}.

(** What it documents of its result: an array of the shape of its input. *)
Class StandardScalerSpec (S : StandardScaler) : Prop := {
  scaler_shape :
    forall X Y, scaler_fit_transform X = Ok Y ->
      shape0 Y = length (values X) /\ shape1 Y = df_shape1 X /\
      rectangular Y
}.

(** The training of the support-vector regressor is libsvm's; it is kept
    abstract. *)
Class LibSVM : Type := {
  svr : Type;
  libsvm_train : params -> ndarray -> list float64 -> svr
}.

(** One entry of a [ColumnTransformer]: its name, what [fit_transform] of a
    fresh clone of its transformer returns, and its columns. *)
Record step : Type := mk_step {
  step_name : string;
  step_fit_transform : DataFrame -> result ndarray;
  step_columns : list string
}.

(** [sklearn.utils._get_column_indices] for a list of labels: the position of
    each label; [ValueError] when a label is not a column of the frame, or
    names more than one. *)
Fixpoint _get_column_indices (X : DataFrame) (key : list string)
  : result (list nat) :=
  match key with
  | [] => Ok []
  | k :: key' =>
      match get_locs k (columns X) 0 with
      | [j] => idx <- _get_column_indices X key' ;; Ok (j :: idx)
      | _ => Raise ValueError
      end
  end.

(** The column positions of every entry, looked up before anything is
    fitted. *)
Fixpoint _validate_column_callables (X : DataFrame) (steps : list step)
  : result (list (step * list nat)) :=
  match steps with
  | [] => Ok []
  | st :: steps' =>
      idx <- _get_column_indices X (step_columns st) ;;
      rest <- _validate_column_callables X steps' ;;
      Ok ((st, idx) :: rest)
  end.

(** Each entry fitted and applied to its columns, in order; an entry with an
    empty column selection is skipped. *)
Fixpoint _fit_transform_steps (X : DataFrame) (sel : list (step * list nat))
  : result (list ndarray) :=
  match sel with
  | [] => Ok []
  | (st, idx) :: sel' =>
      match idx with
      | [] => _fit_transform_steps X sel'
      | _ =>
          Y <- step_fit_transform st (iloc_columns X idx) ;;
          Ys <- _fit_transform_steps X sel' ;;
          Ok (Y :: Ys)
      end
  end.

(** [np.hstack] of two-dimensional arrays: rows joined side by side;
    [ValueError] unless the arrays have the same number of rows, and on an
    empty list. *)
Definition hstack2 (A B : ndarray) : result ndarray :=
  if (shape0 A =? shape0 B)%nat
  then Ok {| shape1 := shape1 A + shape1 B;
             rows := map (fun ab => (fst ab ++ snd ab)%list)
                         (combine (rows A) (rows B)) |}
  else Raise ValueError.

Fixpoint hstack (Xs : list ndarray) : result ndarray :=
  match Xs with
  | [] => Raise ValueError
  | [A] => Ok A
  | A :: Xs' => B <- hstack Xs' ;; hstack2 A B
  end.

(** [ColumnTransformer(steps).fit_transform(X)] (the other columns dropped):
    the results stacked side by side in the order of the entries; an array
    without columns when every entry was skipped. *)
Definition ColumnTransformer_fit_transform (steps : list step) (X : DataFrame)
  : result ndarray :=
  sel <- _validate_column_callables X steps ;;
  Xs <- _fit_transform_steps X sel ;;
  match Xs with
  | [] => Ok {| shape1 := 0; rows := repeat [] (length (values X)) |}
  | _ => hstack Xs
  end.

Section Pipeline.

Context {M : Libm} {S : StandardScaler} {L : LibSVM}.

(** The notebook's [preprocessing_pipeline]: the scaler on the normal
    features, the log transformer on the log features. *)
Definition preprocessing_pipeline (X_train : DataFrame) : list step :=
  [ {| step_name := "standardize"%string;
       step_fit_transform := scaler_fit_transform;
       step_columns := normal_features X_train |};
    {| step_name := "log_transform"%string;
       step_fit_transform := fit_transform __init__;
       step_columns := log_features |} ].

(** [SVR.fit(X, y)]: the inputs validated ([check_array] on [X], finite [y],
    as many targets as rows), then libsvm. *)
Definition SVR_fit (p : params) (X : ndarray) (y : list float64)
  : result svr :=
  X <- check_array X ;;
  if negb (forallb isfinite y) then Raise ValueError
  else if negb (shape0 X =? length y)%nat then Raise ValueError
  else Ok (libsvm_train p X y).

(** The notebook's [svm_reg_pipeline], with the configuration [p] set on its
    regressor, fitted on [X], [y]: the preprocessing fitted and applied, the
    regressor fitted on the result. *)
Definition svm_reg_pipeline_fit (X_train : DataFrame) (p : params)
  (X : DataFrame) (y : list float64) : result svr :=
  Xt <- ColumnTransformer_fit_transform (preprocessing_pipeline X_train) X ;;
  SVR_fit p Xt y.

End Pipeline.

(* ================================================================== *)
(** * Inputs used in the examples *)

Module Examples.

Local Open Scope string_scope.

(** A one-column table like the notebook's [X_train[["age"]]]. *)
Definition age_df : DataFrame :=
  {| columns := ["age"];
     values := [[Finite 28]; [Finite 3]; [Finite 90]] |}.

(** A two-column table with the same kind of rows. *)
Definition cement_age_df : DataFrame :=
  {| columns := ["cement"; "age"];
     values := [[Finite 540; Finite 28]; [Finite 332; Finite 270]] |}.

(** Another table under the column of [age_df], with other numbers. *)
Definition age_df' : DataFrame :=
  {| columns := ["age"]; values := [[Finite 7]] |}.

Definition log_transformer : LogTransformer := fit __init__ age_df.

(** One row, one column, the value 1. *)
Definition ones : ndarray := {| shape1 := 1; rows := [[Finite 1]] |}.

(** No row, one column: [np.empty((0, 1))]. *)
Definition no_rows : ndarray := {| shape1 := 1; rows := [] |}.

(** One column holding a missing value. *)
Definition with_nan : ndarray := {| shape1 := 1; rows := [[Finite 1]; [NaN]] |}.

(** One column holding a zero and a negative number. *)
Definition with_zero : ndarray :=
  {| shape1 := 1; rows := [[Finite 0]; [Finite (-1)]] |}.

(** A library whose logarithm and exponential are off by the relative error
    [2^-53], the logarithm away from zero, the exponential towards it. *)
Definition u53 : R := / 2 ^ 53.

#[local] Instance rounding : Libm := {|
  log_fl := fun x => ln x * (1 + u53);
  exp_fl := fun y => Finite (Rtrigo_def.exp y * (1 - u53))
|}.

(** A generator that counts: the state is the number of draws made. *)
#[local] Instance counter : RandomState := {|
  rng := nat;
  seeded := fun k => k;
  permutation := fun s n => (rev (seq 0 n), S s);
  uniform01 := fun s => (INR (s mod 4) / 4, S s);
  randint := fun s n => ((s mod n)%nat, S s)
|}.

(** A table of five rows and one of a single row. *)
Definition five_rows : DataFrame :=
  {| columns := ["age"; "csMPa"];
     values := [[Finite 1; Finite 10]; [Finite 3; Finite 20];
                [Finite 7; Finite 30]; [Finite 28; Finite 40];
                [Finite 90; Finite 50]] |}.

Definition one_row : DataFrame :=
  {| columns := ["age"; "csMPa"]; values := [[Finite 28; Finite 40]] |}.

(** Five labelled training rows; a scorer that draws from the generator and
    prefers a small [C]; a refit that keeps the parameters. *)
Definition training : dataset :=
  [([Finite 1], Finite 10); ([Finite 3], Finite 20); ([Finite 7], Finite 30);
   ([Finite 28], Finite 40); ([Finite 90], Finite 50)].

Definition prefer_small_C (g : nat) (p : params) (train test : dataset)
  : option float64 * nat :=
  (Some (Finite (- svm_reg__C p)), S g).

Definition keep_params (g : nat) (p : params) (data : dataset)
  : result params :=
  Ok p.

(** Student's t quantile function for two degrees of freedom, in closed
    form; the examples use it with three test rows, [df = 2]. *)
#[local] Instance t2 : StudentT := {|
  t_ppf := fun q _ => (2 * q - 1) / R_sqrt.sqrt (2 * q * (1 - q))
|}.

(** Three test rows; the last prediction is off by 3. *)
Definition y_test3 : list R := [30; 40; 50].
Definition y_pred3 : list R := [30; 40; 53].

(** The same rows; the predictions are off by 10, 10 and 11. *)
Definition y_pred3' : list R := [40; 50; 61].

(** A feature table of three columns, "age" in the middle. *)
Definition features3 : DataFrame :=
  {| columns := ["cement"; "age"; "water"];
     values := [[Finite 540; Finite 28; Finite 162];
                [Finite 332; Finite 270; Finite 228]] |}.

(** The same table with a zero age in its second row. *)
Definition features3_zero_age : DataFrame :=
  {| columns := ["cement"; "age"; "water"];
     values := [[Finite 540; Finite 28; Finite 162];
                [Finite 332; Finite 0; Finite 228]] |}.

(** A table without the column "age". *)
Definition no_age : DataFrame :=
  {| columns := ["cement"; "water"];
     values := [[Finite 540; Finite 162]] |}.

(** A table with features and the target. *)
Definition concrete3 : DataFrame :=
  {| columns := ["cement"; "age"; "csMPa"];
     values := [[Finite 540; Finite 28; Finite 80];
                [Finite 332; Finite 270; Finite 40]] |}.

(** A scaler that hands its input back. *)
#[local] Instance passthrough : StandardScaler := {|
  scaler_fit_transform := fun X =>
    Ok (to_numpy (iloc_columns X (seq 0 (length (columns X)))))
|}.

(** A regressor that remembers what it was trained on. *)
#[local] Instance recorder : LibSVM := {|
  svr := (params * ndarray * list float64)%type;
  libsvm_train := fun p X y => (p, X, y)
|}.

Definition some_params : params :=
  {| svm_reg__C := 1; svm_reg__gamma := SVR.scale;
     svm_reg__kernel := SVR.rbf |}.

End Examples.

(* ================================================================== *)
(** * Properties of the Invertible Transform Adapter *)

Section Adapter.

Context {M : Libm}.

Implicit Types (self : LogTransformer) (df : DataFrame) (X Y : ndarray).

Lemma fit_is_fitted self df : is_fitted (fit self df) = true.
Proof. reflexivity. Qed.

Lemma unfitted_is_init self : is_fitted self = false -> self = __init__.
Proof.
  destruct self as [[names|] [n|]]; simpl; intros H;
    try discriminate; reflexivity.
Qed.

(** What [check_array] accepts: finite elements, a row, a column. *)
Lemma check_array_accepts X :
  all_finite X = true -> (1 <= shape0 X)%nat -> (1 <= shape1 X)%nat ->
  check_array X = Ok X.
Proof.
  intros Hfin Hrows Hcols. unfold check_array. rewrite Hfin. simpl.
  destruct (Nat.ltb_spec (shape0 X) 1) as [H|_]; [lia|].
  destruct (Nat.ltb_spec (shape1 X) 1) as [H|_]; [lia|].
  reflexivity.
Qed.

Lemma check_array_Ok X Y :
  check_array X = Ok Y ->
  Y = X /\ all_finite X = true /\ (1 <= shape0 X)%nat /\ (1 <= shape1 X)%nat.
Proof.
  unfold check_array.
  destruct (all_finite X); simpl; [|discriminate].
  destruct (Nat.ltb_spec (shape0 X) 1); [discriminate|].
  destruct (Nat.ltb_spec (shape1 X) 1); [discriminate|].
  intros [= <-]. repeat split; auto.
Qed.

Lemma check_array_raises X e : check_array X = Raise e -> e = ValueError.
Proof.
  unfold check_array.
  destruct (negb (all_finite X)); [congruence|].
  destruct (shape0 X <? 1)%nat; [congruence|].
  destruct (shape1 X <? 1)%nat; congruence.
Qed.

(** [transform] on a fitted adapter: the validation, then the comparison of
    the column counts, then the logarithm. *)
Lemma transform_fit self df X :
  transform (fit self df) X =
  (X <- check_array X ;;
   if (df_shape1 df =? shape1 X)%nat then Ok (ufunc Np.log X)
   else Raise AssertionError).
Proof. reflexivity. Qed.

Lemma transform_accepted self df X :
  all_finite X = true -> (1 <= shape0 X)%nat -> (1 <= shape1 X)%nat ->
  transform (fit self df) X =
  if (df_shape1 df =? shape1 X)%nat then Ok (ufunc Np.log X)
  else Raise AssertionError.
Proof.
  intros Hfin Hrows Hcols.
  rewrite transform_fit, (check_array_accepts X Hfin Hrows Hcols).
  reflexivity.
Qed.

(** An input that [check_array] refuses makes a fitted adapter's
    [transform] raise that [ValueError], whatever its column count. *)
Lemma transform_invalid self df X e :
  check_array X = Raise e -> transform (fit self df) X = Raise ValueError.
Proof.
  intros Hcheck. rewrite transform_fit, Hcheck. simpl.
  now rewrite (check_array_raises X e Hcheck).
Qed.

Lemma check_array_rejects X :
  all_finite X = false \/ shape0 X = 0%nat \/ shape1 X = 0%nat ->
  exists e, check_array X = Raise e.
Proof.
  intros Hbad. destruct (check_array X) as [Y|e] eqn:Hcheck; [|now exists e].
  apply check_array_Ok in Hcheck as (_ & Hfin & Hrows & Hcols).
  destruct Hbad as [H|[H|H]]; [congruence|lia|lia].
Qed.

Lemma positive_isfinite v : positive v -> isfinite v = true.
Proof. destruct v; simpl; intros H; try contradiction; reflexivity. Qed.

Lemma all_positive_finite X : all_positive X -> all_finite X = true.
Proof.
  unfold all_positive, all_finite. intros H.
  apply forallb_forall. intros row Hrow.
  apply forallb_forall. intros v Hv.
  apply positive_isfinite.
  rewrite Forall_forall in H. specialize (H row Hrow).
  rewrite Forall_forall in H. now apply H.
Qed.

Lemma Rabs_le_between (a b : R) : Rabs a <= b -> - b <= a <= b.
Proof.
  intros H. pose proof (Rle_abs a). pose proof (Rle_abs (- a)) as H'.
  rewrite Rabs_Ropp in H'. lra.
Qed.

Lemma exp_le (a b : R) : a <= b -> Rtrigo_def.exp a <= Rtrigo_def.exp b.
Proof.
  intros [H|H]; [left; now apply exp_increasing|right; now rewrite H].
Qed.

(** The effect of two relative errors, [d1] on the logarithm and [d2] on the
    exponential, each of at most [u], on the round trip of a positive
    [x]. *)
Lemma exp_ln_factors (u d1 d2 x : R) :
  0 < x -> 0 <= u -> Rabs d1 <= u -> Rabs d2 <= u ->
  Rabs (Rtrigo_def.exp (ln x * (1 + d1)) * (1 + d2) - x)
  <= x * ((1 + u) * Rtrigo_def.exp (u * Rabs (ln x)) - 1).
Proof.
  intros Hx Hu Hd1 Hd2.
  set (L := Rabs (ln x)).
  set (K := Rtrigo_def.exp (u * L)).
  set (E := Rtrigo_def.exp (ln x * d1)).
  assert (HL : 0 <= L) by apply Rabs_pos.
  assert (Hsplit : Rtrigo_def.exp (ln x * (1 + d1)) = x * E).
  { replace (ln x * (1 + d1)) with (ln x + ln x * d1) by ring.
    rewrite exp_plus, exp_ln by assumption. reflexivity. }
  assert (Hprod : Rabs (ln x * d1) <= u * L).
  { rewrite Rabs_mult. fold L. pose proof (Rabs_pos d1). nra. }
  apply Rabs_le_between in Hprod as [Hprod1 Hprod2].
  assert (HE : 0 < E) by apply exp_pos.
  assert (HEK : E <= K) by (now apply exp_le).
  assert (HK1 : 1 <= K).
  { unfold K. rewrite <- exp_0. apply exp_le. nra. }
  assert (HEK1 : 1 <= E * K).
  { unfold E, K. rewrite <- exp_plus, <- exp_0. apply exp_le. lra. }
  apply Rabs_le_between in Hd2 as [Hd2a Hd2b].
  rewrite Hsplit.
  replace (x * E * (1 + d2) - x) with (x * (E * (1 + d2) - 1)) by ring.
  rewrite Rabs_mult, (Rabs_pos_eq x) by lra.
  apply Rmult_le_compat_l; [lra|].
  apply Rabs_le. split.
  - assert (Hv : E * (1 - u) <= E * (1 + d2)) by nra.
    destruct (Rle_lt_dec u 1) as [Hu1|Hu1].
    + assert (H1 : 0 <= (E * K - 1) * (1 - u))
        by (apply Rmult_le_pos; lra).
      assert (H2 : 0 <= (K - 1) * (K - 1) + u * ((K - 1) * (K + 1))).
      { apply Rplus_le_le_0_compat; [nra|].
        apply Rmult_le_pos; [lra|]. apply Rmult_le_pos; lra. }
      assert (H3 : (2 - (1 + u) * K) * K <= E * (1 - u) * K) by lra.
      assert (H4 : 2 - (1 + u) * K <= E * (1 - u)).
      { apply (Rmult_le_reg_r K); lra. }
      lra.
    + assert (H1 : 0 <= (K - E) * (u - 1))
        by (apply Rmult_le_pos; lra).
      assert (H2 : 0 <= K * u) by (apply Rmult_le_pos; lra).
      lra.
  - assert (Hv : E * (1 + d2) <= E * (1 + u)) by nra.
    assert (Hw : E * (1 + u) <= K * (1 + u)) by nra.
    lra.
Qed.

(** The same with the results themselves: [y] within the relative error [u]
    of [ln x], [z] within the relative error [u] of [e^y]. *)
Lemma exp_ln_rounded (u x y z : R) :
  0 < x -> 0 <= u ->
  Rabs (y - ln x) <= u * Rabs (ln x) ->
  Rabs (z - Rtrigo_def.exp y) <= u * Rtrigo_def.exp y ->
  Rabs (z - x) <= x * ((1 + u) * Rtrigo_def.exp (u * Rabs (ln x)) - 1).
Proof.
  intros Hx Hu Hy Hz.
  assert (Hey : 0 < Rtrigo_def.exp y) by apply exp_pos.
  assert (Hd2 : exists d2, Rabs d2 <= u /\ z = Rtrigo_def.exp y * (1 + d2)).
  { exists ((z - Rtrigo_def.exp y) / Rtrigo_def.exp y). split.
    - unfold Rdiv. rewrite Rabs_mult, (Rabs_pos_eq (/ _)).
      + apply (Rmult_le_reg_r (Rtrigo_def.exp y)); [assumption|].
        rewrite Rmult_assoc, Rinv_l by lra. lra.
      + left. now apply Rinv_0_lt_compat.
    - field. lra. }
  assert (Hd1 : exists d1, Rabs d1 <= u /\ y = ln x * (1 + d1)).
  { destruct (Req_dec_T (ln x) 0) as [H0|Hne].
    - exists 0. rewrite Rabs_R0. split; [assumption|].
      rewrite H0, Rabs_R0, Rmult_0_r, Rminus_0_r in Hy.
      pose proof (Rabs_pos y). rewrite H0.
      assert (Hy0 : Rabs y = 0) by lra.
      destruct (Req_dec_T y 0) as [->|Hy'']; [ring|].
      apply Rabs_no_R0 in Hy''. contradiction.
    - exists ((y - ln x) / ln x). split.
      + assert (Hl : 0 < Rabs (ln x)) by (now apply Rabs_pos_lt).
        unfold Rdiv. rewrite Rabs_mult, Rabs_inv.
        apply (Rmult_le_reg_r (Rabs (ln x))); [assumption|].
        rewrite Rmult_assoc, Rinv_l by lra. lra.
      + field. assumption. }
  destruct Hd1 as (d1 & Hd1 & ->). destruct Hd2 as (d2 & Hd2 & ->).
  now apply exp_ln_factors.
Qed.

(** The tolerance of the round trip at an element [x]: [np.isclose] with the
    relative tolerance [(1 + u) * e^(u * |ln x|) - 1] and no absolute one. *)
Lemma isclose_exp_log (u : R) (v : float64) :
  0 <= u -> positive v -> round_trip_accurate u v ->
  exists r, v = Finite r /\
    isclose ((1 + u) * Rtrigo_def.exp (u * Rabs (ln r)) - 1) 0
            (Np.exp (Np.log v)) v.
Proof.
  intros Hu Hpos Hacc. destruct v as [x| | |]; try contradiction.
  exists x. split; [reflexivity|].
  destruct Hacc as [Hlog (z & Hz & Hexp)]. simpl in Hpos.
  pose proof (exp_ln_rounded u x (log_fl x) z Hpos Hu Hlog Hexp) as Hzx.
  replace (Np.exp (Np.log (Finite x))) with (Finite z).
  - cbn [isclose]. rewrite (Rabs_pos_eq x) by lra. lra.
  - unfold Np.log. destruct (Rlt_dec 0 x); [|contradiction].
    cbn [Np.exp]. now rewrite Hz.
Qed.

Lemma isclose_weaken (rt rtol atol : R) (z x : float64) :
  rt <= rtol -> 0 <= atol -> isclose rt 0 z x -> isclose rtol atol z x.
Proof.
  intros Hr Ha. destruct z as [a| | |], x as [b| | |]; simpl; auto.
  pose proof (Rabs_pos b). nra.
Qed.

Lemma Forall2_Forall_impl {A B : Type} (P R : A -> B -> Prop)
  (Q : B -> Prop) (l1 : list A) (l2 : list B) :
  (forall a b, P a b -> Q b -> R a b) ->
  Forall2 P l1 l2 -> Forall Q l2 -> Forall2 R l1 l2.
Proof.
  intros H H2. induction H2 as [|a b l1 l2 Hab _ IH]; intros HQ;
    [constructor|].
  inversion HQ; subst. constructor; auto.
Qed.

Lemma Forall2_map_self {A : Type} (f : A -> A) (P : A -> A -> Prop)
  (l : list A) :
  Forall (fun a => P (f a) a) l -> Forall2 P (map f l) l.
Proof. induction 1; simpl; constructor; auto. Qed.

Lemma Forall_and {A : Type} (P Q : A -> Prop) (l : list A) :
  Forall P l -> Forall Q l -> Forall (fun a => P a /\ Q a) l.
Proof.
  intros HP. induction HP as [|a l Ha _ IH]; intros HQ; [constructor|].
  inversion HQ; subst. constructor; auto.
Qed.

(** C1, as the code has it.  For an adapter fitted on a table [df] and a
    matrix [X] with at least one row and one column, every element a
    positive number, and as many columns as [df]: [transform] returns, and
    [inverse_transform] of what it returns is close to [X], as close as the
    library's logarithm and exponential are accurate.  If, on the elements
    of [X], both return their results within the relative error [u], then
    every element [x] comes back within the relative tolerance
    [(1 + u) * e^(u * |ln x|) - 1]; and [np.allclose] holds between the
    result and [X] for every relative tolerance of at least
    [(1 + u) * e^(u * L) - 1], where [L] bounds [|ln x|] over the elements,
    and any absolute tolerance. *)
Theorem inverse_transform_transform self df X (u : R) :
  shape1 X = df_shape1 df ->
  (1 <= shape0 X)%nat -> (1 <= shape1 X)%nat ->
  all_positive X ->
  0 <= u ->
  Forall (Forall (round_trip_accurate u)) (rows X) ->
  exists Y,
    transform (fit self df) X = Ok Y /\
    shape1 (inverse_transform (fit self df) Y) = shape1 X /\
    Forall2
      (Forall2
         (fun z x =>
            exists r, x = Finite r /\
              isclose ((1 + u) * Rtrigo_def.exp (u * Rabs (ln r)) - 1) 0
                      z x))
      (rows (inverse_transform (fit self df) Y)) (rows X) /\
    forall L rtol atol,
      Forall (Forall (fun x => forall r, x = Finite r -> Rabs (ln r) <= L))
             (rows X) ->
      (1 + u) * Rtrigo_def.exp (u * L) - 1 <= rtol ->
      0 <= atol ->
      allclose rtol atol (inverse_transform (fit self df) Y) X.
Proof.
  intros Hcols Hrows Hcol1 Hpos Hu Hacc.
  pose proof (all_positive_finite X Hpos) as Hfin.
  exists (ufunc Np.log X).
  rewrite (transform_accepted self df X Hfin Hrows Hcol1).
  rewrite <- Hcols, Nat.eqb_refl.
  split; [reflexivity|]. split; [reflexivity|].
  assert (Hclose :
    Forall2
      (Forall2
         (fun z x =>
            exists r, x = Finite r /\
              isclose ((1 + u) * Rtrigo_def.exp (u * Rabs (ln r)) - 1) 0
                      z x))
      (rows (inverse_transform (fit self df) (ufunc Np.log X))) (rows X)).
  { unfold inverse_transform, ufunc. cbn [rows]. rewrite map_map.
    apply Forall2_map_self.
    pose proof (Forall_and _ _ _ Hpos Hacc) as Hboth.
    eapply Forall_impl; [|exact Hboth].
    intros row [Hrow_pos Hrow_acc]. cbv beta in *. rewrite map_map.
    apply Forall2_map_self.
    pose proof (Forall_and _ _ _ Hrow_pos Hrow_acc) as Hrow.
    eapply Forall_impl; [|exact Hrow].
    intros v [Hv Hv_acc]. now apply isclose_exp_log. }
  split; [exact Hclose|].
  intros L rtol atol HL Hrtol Hatol. split; [reflexivity|].
  eapply Forall2_Forall_impl; [|exact Hclose|exact HL].
  intros zs xs Hzx Hxs. cbv beta in *.
  eapply Forall2_Forall_impl; [|exact Hzx|exact Hxs].
  intros z x (r & -> & Hz) Hr. cbv beta in *.
  specialize (Hr r eq_refl).
  apply (isclose_weaken _ rtol atol) in Hz; [assumption| |assumption].
  apply Rle_trans with ((1 + u) * Rtrigo_def.exp (u * L) - 1);
    [|assumption].
  assert (He : Rtrigo_def.exp (u * Rabs (ln r)) <= Rtrigo_def.exp (u * L)).
  { apply exp_le. nra. }
  nra.
Qed.

(** Rounding, at one element.  If, at a positive [x], [np.log] returns the
    logarithm within the relative error [u], and [np.exp] returns the
    exponential of that result within the relative error [u], then
    [np.exp(np.log(x))] is a number within
    [x * ((1 + u) * e^(u * |ln x|) - 1)] of [x]. *)
Lemma exp_log_rounded (u x : R) :
  0 < x -> 0 <= u ->
  log_accurate u x ->
  exp_accurate u (log_fl x) ->
  exists z,
    Np.exp (Np.log (Finite x)) = Finite z /\
    Rabs (z - x) <= x * ((1 + u) * Rtrigo_def.exp (u * Rabs (ln x)) - 1).
Proof.
  intros Hx Hu Hlog (z & Hz & Hexp).
  exists z. split.
  - unfold Np.log. destruct (Rlt_dec 0 x); [|contradiction].
    cbn [Np.exp]. exact Hz.
  - unfold log_accurate in Hlog.
    now apply (exp_ln_rounded u x (log_fl x) z).
Qed.

(** C3, as the code has it.  Before [fit], [transform] raises
    [NotFittedError].  After [fit], an input with another column count makes
    [transform] raise: the assertion's error when the input passes the
    validation of [check_array], that validation's [ValueError] otherwise.
    With the fitted column count, an input that passes the validation (finite
    elements, at least one row and one column) gives the elementwise
    logarithm. *)
Theorem transform_checks self df X :
  (is_fitted self = false -> transform self X = Raise NotFittedError) /\
  (shape1 X <> df_shape1 df ->
     raises (transform (fit self df) X) /\
     (all_finite X = true -> (1 <= shape0 X)%nat -> (1 <= shape1 X)%nat ->
      transform (fit self df) X = Raise AssertionError) /\
     (forall e, check_array X = Raise e ->
      transform (fit self df) X = Raise ValueError) /\
     (all_finite X = false \/ shape0 X = 0%nat \/ shape1 X = 0%nat ->
      transform (fit self df) X = Raise ValueError)) /\
  (shape1 X = df_shape1 df ->
     all_finite X = true -> (1 <= shape0 X)%nat -> (1 <= shape1 X)%nat ->
     transform (fit self df) X = Ok (ufunc Np.log X)).
Proof.
  split; [|split].
  - intros Hself. unfold transform, check_is_fitted. now rewrite Hself.
  - intros Hne.
    assert (Hneq : (df_shape1 df =? shape1 X)%nat = false)
      by (apply Nat.eqb_neq; congruence).
    split; [|split; [|split]].
    + rewrite transform_fit.
      destruct (check_array X) as [Y|e] eqn:Hcheck; simpl.
      * apply check_array_Ok in Hcheck as [-> _].
        rewrite Hneq. now exists AssertionError.
      * now exists e.
    + intros Hfin Hrows Hcols.
      now rewrite (transform_accepted self df X Hfin Hrows Hcols), Hneq.
    + intros e Hcheck. now apply transform_invalid with e.
    + intros Hbad. destruct (check_array_rejects X Hbad) as [e He].
      now apply transform_invalid with e.
  - intros Heq Hfin Hrows Hcols.
    rewrite (transform_accepted self df X Hfin Hrows Hcols).
    now rewrite Heq, Nat.eqb_refl.
Qed.

(** An element that is not finite makes the whole array not finite. *)
Lemma all_finite_false X :
  (exists row v, In row (rows X) /\ In v row /\ isfinite v = false) ->
  all_finite X = false.
Proof.
  intros (row & v & Hrow & Hv & Hnf). unfold all_finite.
  apply not_true_is_false. intros H.
  rewrite forallb_forall in H. specialize (H row Hrow).
  rewrite forallb_forall in H. specialize (H v Hv). congruence.
Qed.

(** C9.  A fitted adapter's [transform] raises [ValueError] on every input
    that holds a [nan] or an infinity, whatever its shape: [check_array]
    runs first and rejects it; no logarithm is taken. *)
Theorem transform_rejects_non_finite self X :
  is_fitted self = true ->
  (exists row v, In row (rows X) /\ In v row /\ isfinite v = false) ->
  transform self X = Raise ValueError.
Proof.
  intros Hself Hnf. apply all_finite_false in Hnf.
  unfold transform, check_is_fitted, check_array.
  now rewrite Hself, Hnf.
Qed.

Lemma item_ufunc (f : float64 -> float64) X i j :
  item (ufunc f X) i j = option_map f (item X i j).
Proof.
  unfold item, ufunc. simpl. rewrite nth_error_map.
  destruct (nth_error (rows X) i) as [row|]; simpl; [|reflexivity].
  apply nth_error_map.
Qed.

Lemma item_In X i j v :
  item X i j = Some v -> exists row, In row (rows X) /\ In v row.
Proof.
  unfold item. destruct (nth_error (rows X) i) as [row|] eqn:Hrow;
    [|discriminate].
  intros Hv. exists row. split; eapply nth_error_In; eauto.
Qed.

Lemma item_in_shape X i j v :
  rectangular X -> item X i j = Some v ->
  (i < shape0 X)%nat /\ (j < shape1 X)%nat.
Proof.
  unfold rectangular, item, shape0. intros Hrect.
  destruct (nth_error (rows X) i) as [row|] eqn:Hrow; [|discriminate].
  intros Hv. split.
  - apply nth_error_Some. congruence.
  - rewrite Forall_forall in Hrect.
    rewrite <- (Hrect row (nth_error_In _ _ Hrow)).
    apply nth_error_Some. congruence.
Qed.

(** The logarithm of a number that is not positive is not finite. *)
Lemma log_non_positive r :
  r <= 0 ->
  Np.log (Finite r) = (if Req_dec_T r 0 then NegInf else NaN) /\
  isfinite (Np.log (Finite r)) = false.
Proof.
  intros Hr. simpl.
  destruct (Rlt_dec 0 r) as [H|_]; [lra|].
  destruct (Req_dec_T r 0); split; reflexivity.
Qed.

(** On an array of finite numbers with the fitted column count, a zero or
    negative element does not make [transform] raise: it returns, with
    [-inf] in the place of a zero and [nan] in the place of a negative
    number, an array that is no longer finite. *)
Lemma transform_non_positive_item self df X i j r :
  rectangular X ->
  shape1 X = df_shape1 df ->
  all_finite X = true ->
  item X i j = Some (Finite r) ->
  r <= 0 ->
  exists Y,
    transform (fit self df) X = Ok Y /\
    item Y i j = Some (if Req_dec_T r 0 then NegInf else NaN) /\
    all_finite Y = false.
Proof.
  intros Hrect Hcols Hfin Hitem Hr.
  destruct (item_in_shape X i j _ Hrect Hitem) as [Hi Hj].
  destruct (log_non_positive r Hr) as [Hlog Hnf].
  exists (ufunc Np.log X).
  assert (Hout : item (ufunc Np.log X) i j = Some (Np.log (Finite r)))
    by (now rewrite item_ufunc, Hitem).
  split; [|split].
  - rewrite (transform_accepted self df X Hfin) by lia.
    now rewrite Hcols, Nat.eqb_refl.
  - now rewrite Hout, Hlog.
  - apply all_finite_false.
    destruct (item_In _ _ _ _ Hout) as (row & Hrow & Hv).
    now exists row, (Np.log (Finite r)).
Qed.

(** C7.  [inverse_transform] is the elementwise exponential and nothing
    else: it does not look at the adapter, fitted or not, nor at the shape
    of its argument, and it cannot raise. *)
Theorem inverse_transform_unchecked self X :
  inverse_transform self X = ufunc Np.exp X /\
  shape1 (inverse_transform self X) = shape1 X /\
  shape0 (inverse_transform self X) = shape0 X /\
  forall i j, item (inverse_transform self X) i j
              = option_map Np.exp (item X i j).
Proof.
  unfold inverse_transform. split; [reflexivity|]. split; [reflexivity|].
  split.
  - unfold shape0, ufunc. simpl. apply length_map.
  - intros i j. apply item_ufunc.
Qed.

(** [get_feature_names_out] answers with the columns of the table the
    adapter was fitted on, whatever its argument, and raises
    [AttributeError] on an adapter that was never fitted. *)
Lemma get_feature_names_out_fit self df names :
  get_feature_names_out (fit self df) names = Ok (columns df) /\
  get_feature_names_out __init__ names = Raise AttributeError.
Proof. split; reflexivity. Qed.

(** C10.  [fit] keeps the column labels and their number, and nothing of
    the values: two tables with the same columns give the same fitted
    adapter, whatever the adapters were before, so every later call of
    [transform], [get_feature_names_out] and [inverse_transform] agrees. *)
Theorem fit_columns_only self1 self2 df1 df2 :
  columns df1 = columns df2 ->
  fit self1 df1 = fit self2 df2 /\
  (forall X, transform (fit self1 df1) X = transform (fit self2 df2) X) /\
  (forall names, get_feature_names_out (fit self1 df1) names
                 = get_feature_names_out (fit self2 df2) names) /\
  (forall X, inverse_transform (fit self1 df1) X
             = inverse_transform (fit self2 df2) X).
Proof.
  intros Hcols.
  assert (Hfit : fit self1 df1 = fit self2 df2)
    by (unfold fit, df_shape1; now rewrite Hcols).
  rewrite Hfit. repeat split.
Qed.

End Adapter.

(** The library of the examples is accurate to [2^-53] everywhere. *)
Lemma rounding_accurate (x : R) :
  @round_trip_accurate Examples.rounding Examples.u53 (Finite x).
Proof.
  assert (Hu : 0 < Examples.u53).
  { unfold Examples.u53. apply Rinv_0_lt_compat, pow_lt. lra. }
  split.
  - unfold log_accurate. cbn [log_fl Examples.rounding].
    replace (ln x * (1 + Examples.u53) - ln x)
      with (Examples.u53 * ln x) by ring.
    rewrite Rabs_mult, (Rabs_pos_eq Examples.u53) by lra. lra.
  - unfold exp_accurate. cbn [exp_fl log_fl Examples.rounding].
    eexists. split; [reflexivity|].
    set (e := Rtrigo_def.exp _).
    assert (He : 0 < e) by apply exp_pos.
    replace (e * (1 - Examples.u53) - e) with (- (Examples.u53 * e)) by ring.
    rewrite Rabs_Ropp, Rabs_pos_eq; [lra|].
    apply Rmult_le_pos; lra.
Qed.

Lemma inverse_transform_transform_witness :
  exists Y,
    @transform Examples.rounding (fit __init__ Examples.age_df)
      (to_numpy Examples.age_df) = Ok Y /\
    shape1 (@inverse_transform Examples.rounding
              (fit __init__ Examples.age_df) Y)
    = shape1 (to_numpy Examples.age_df) /\
    Forall2
      (Forall2
         (fun z x =>
            exists r, x = Finite r /\
              isclose ((1 + Examples.u53)
                       * Rtrigo_def.exp (Examples.u53 * Rabs (ln r)) - 1) 0
                      z x))
      (rows (@inverse_transform Examples.rounding
               (fit __init__ Examples.age_df) Y))
      (rows (to_numpy Examples.age_df)) /\
    forall L rtol atol,
      Forall (Forall (fun x => forall r, x = Finite r -> Rabs (ln r) <= L))
             (rows (to_numpy Examples.age_df)) ->
      (1 + Examples.u53) * Rtrigo_def.exp (Examples.u53 * L) - 1 <= rtol ->
      0 <= atol ->
      allclose rtol atol
        (@inverse_transform Examples.rounding
           (fit __init__ Examples.age_df) Y)
        (to_numpy Examples.age_df).
Proof.
  apply (@inverse_transform_transform Examples.rounding __init__
           Examples.age_df (to_numpy Examples.age_df) Examples.u53).
  - reflexivity.
  - vm_compute. lia.
  - vm_compute. lia.
  - unfold all_positive. simpl.
    repeat constructor; simpl; lra.
  - unfold Examples.u53. left. apply Rinv_0_lt_compat, pow_lt. lra.
  - simpl.
    repeat (apply Forall_cons;
            [repeat (apply Forall_cons; [apply rounding_accurate|]);
             apply Forall_nil|]).
    apply Forall_nil.
Defined.

(** C1, as stated, fails on a matrix without rows: all its (no) elements are
    positive and its column count is the fitted one, yet [transform] raises
    [ValueError] and there is nothing to invert. *)
Lemma inverse_transform_transform_no_rows :
  shape1 Examples.no_rows = df_shape1 Examples.age_df /\
  all_positive Examples.no_rows /\
  @transform Examples.rounding Examples.log_transformer Examples.no_rows
  = Raise ValueError.
Proof.
  split; [reflexivity|]. split; [constructor|]. reflexivity.
Qed.

Lemma exp_log_rounded_witness :
  exists z,
    @Np.exp Examples.rounding (@Np.log Examples.rounding (Finite 2))
    = Finite z /\
    Rabs (z - 2)
    <= 2 * ((1 + Examples.u53)
            * Rtrigo_def.exp (Examples.u53 * Rabs (ln 2)) - 1).
Proof.
  destruct (rounding_accurate 2) as [Hlog Hexp].
  apply (@exp_log_rounded Examples.rounding Examples.u53 2).
  - lra.
  - unfold Examples.u53. left. apply Rinv_0_lt_compat, pow_lt. lra.
  - exact Hlog.
  - exact Hexp.
Defined.

Lemma transform_checks_witness :
  @transform Examples.rounding __init__ Examples.ones = Raise NotFittedError /\
  @transform Examples.rounding (fit __init__ Examples.cement_age_df)
    Examples.ones
    = Raise AssertionError /\
  @transform Examples.rounding (fit __init__ Examples.age_df) Examples.ones
    = Ok (ufunc (@Np.log Examples.rounding) Examples.ones).
Proof.
  split; [|split].
  - apply (proj1 (@transform_checks Examples.rounding __init__
                    Examples.age_df Examples.ones)).
    reflexivity.
  - apply (proj1 (proj2 (proj1 (proj2
      (@transform_checks Examples.rounding __init__
         Examples.cement_age_df Examples.ones))
      ltac:(vm_compute; discriminate)))).
    + reflexivity.
    + vm_compute. lia.
    + vm_compute. lia.
  - apply (proj2 (proj2
      (@transform_checks Examples.rounding __init__
         Examples.age_df Examples.ones))).
    + reflexivity.
    + reflexivity.
    + vm_compute. lia.
    + vm_compute. lia.
Defined.

(** C3, as stated, fails on an input with a missing value: the adapter is
    fitted and the column counts agree, yet [transform] raises [ValueError]
    and returns no logarithm. *)
Lemma transform_checks_nan :
  is_fitted Examples.log_transformer = true /\
  shape1 Examples.with_nan = df_shape1 Examples.age_df /\
  @transform Examples.rounding Examples.log_transformer Examples.with_nan
  = Raise ValueError.
Proof. repeat split. Qed.

Lemma transform_rejects_non_finite_witness :
  @transform Examples.rounding Examples.log_transformer Examples.with_nan
  = Raise ValueError.
Proof.
  apply (@transform_rejects_non_finite Examples.rounding
           Examples.log_transformer Examples.with_nan).
  - reflexivity.
  - exists [NaN], NaN. simpl. repeat split; auto.
Defined.

(** Where [transform] refuses, [inverse_transform] answers: on an adapter
    that was never fitted, and on a column count other than the fitted one. *)
Lemma inverse_transform_asymmetry :
  @transform Examples.rounding __init__ Examples.ones = Raise NotFittedError /\
  @inverse_transform Examples.rounding __init__ Examples.ones
    = {| shape1 := 1; rows := [[@Np.exp Examples.rounding (Finite 1)]] |} /\
  @transform Examples.rounding (fit __init__ Examples.cement_age_df)
    Examples.ones
    = Raise AssertionError /\
  @inverse_transform Examples.rounding (fit __init__ Examples.cement_age_df)
    Examples.ones
    = {| shape1 := 1; rows := [[@Np.exp Examples.rounding (Finite 1)]] |}.
Proof. repeat split. Qed.

Lemma fit_columns_only_witness :
  fit __init__ Examples.age_df
  = fit Examples.log_transformer Examples.age_df' /\
  (forall X,
     @transform Examples.rounding (fit __init__ Examples.age_df) X
     = @transform Examples.rounding
         (fit Examples.log_transformer Examples.age_df') X) /\
  (forall names, get_feature_names_out (fit __init__ Examples.age_df) names
                 = get_feature_names_out
                     (fit Examples.log_transformer Examples.age_df') names) /\
  (forall X,
     @inverse_transform Examples.rounding (fit __init__ Examples.age_df) X
     = @inverse_transform Examples.rounding
         (fit Examples.log_transformer Examples.age_df') X).
Proof.
  apply (@fit_columns_only Examples.rounding __init__ Examples.log_transformer
           Examples.age_df Examples.age_df').
  reflexivity.
Defined.

(* ================================================================== *)
(** * Properties of the splitter and of the search *)

Lemma counter_spec : RandomStateSpec Examples.counter.
Proof.
  constructor.
  - intros s n. apply Permutation_sym, Permutation_rev.
  - intros s. change (0 <= INR (s mod 4) / 4 < 1).
    assert (H : (s mod 4 < 4)%nat) by (apply Nat.mod_upper_bound; lia).
    apply lt_INR in H. pose proof (pos_INR (s mod 4)) as H0.
    replace (INR 4) with 4 in H by (simpl; lra). lra.
  - intros s n Hn. change ((s mod n < n)%nat).
    apply Nat.mod_upper_bound. lia.
Qed.

Section Lists.

Context {A : Type}.

Lemma take_in_range (l : list A) (d : A) (idx : list nat) :
  Forall (fun i => (i < length l)%nat) idx ->
  take l idx = Some (map (fun i => nth i l d) idx).
Proof.
  induction 1 as [|i idx Hi _ IH]; simpl; [reflexivity|].
  rewrite IH. apply (nth_error_nth' l d) in Hi. now rewrite Hi.
Qed.

Lemma map_nth_seq_from (l1 l2 : list A) (d : A) :
  map (fun i => nth i (l1 ++ l2) d) (seq (length l1) (length l2)) = l2.
Proof.
  revert l1. induction l2 as [|a l2 IH]; intros l1; simpl; [reflexivity|].
  f_equal.
  - rewrite app_nth2 by lia. now rewrite Nat.sub_diag.
  - specialize (IH (l1 ++ [a])).
    rewrite length_app, <- app_assoc in IH. simpl in IH.
    now rewrite Nat.add_1_r in IH.
Qed.

Lemma map_nth_seq (l : list A) (d : A) :
  map (fun i => nth i l d) (seq 0 (length l)) = l.
Proof. exact (map_nth_seq_from [] l d). Qed.

(** Taking the elements at a permutation of all positions permutes the
    list. *)
Lemma take_permutation (l : list A) (p : list nat) :
  Permutation p (seq 0 (length l)) ->
  exists r, take l p = Some r /\ Permutation r l.
Proof.
  intros Hp. destruct l as [|d l'] eqn:Hl.
  - simpl in Hp. apply Permutation_sym, Permutation_nil in Hp. subst p.
    exists []. split; [reflexivity|constructor].
  - rewrite <- Hl in *. exists (map (fun i => nth i l d) p). split.
    + apply take_in_range. apply Forall_forall. intros i Hi.
      apply (Permutation_in _ Hp), in_seq in Hi. lia.
    + pose proof (Permutation_map (fun i => nth i l d) Hp) as H.
      now rewrite map_nth_seq in H.
Qed.

Lemma take_app (l : list A) (p q : list nat) (r : list A) :
  take l (p ++ q) = Some r ->
  exists rp rq, take l p = Some rp /\ take l q = Some rq /\ r = (rp ++ rq)%list.
Proof.
  revert r. induction p as [|i p IH]; intros r; simpl.
  - intros H. exists [], r. auto.
  - destruct (nth_error l i) as [a|]; [|discriminate].
    destruct (take l (p ++ q)) as [r'|]; [|discriminate].
    intros [= <-]. destruct (IH r' eq_refl) as (rp & rq & Hp & Hq & ->).
    exists (a :: rp), rq. now rewrite Hp.
Qed.

End Lists.

Section Splitter.

Context {RS : RandomState}.

Lemma ceil_fifth_lt n : (2 <= n)%nat -> (ceil_fraction 1 5 n < n)%nat.
Proof.
  intros Hn. unfold ceil_fraction. apply Nat.Div0.div_lt_upper_bound. lia.
Qed.

Lemma validate_fifth n :
  (2 <= n)%nat ->
  _validate_shuffle_split n 1 5
  = Ok ((n - ceil_fraction 1 5 n)%nat, ceil_fraction 1 5 n).
Proof.
  intros Hn. pose proof (ceil_fifth_lt n Hn) as Hlt.
  unfold _validate_shuffle_split. cbn [Nat.eqb Nat.leb orb]. cbv zeta.
  destruct (Nat.eqb_spec (n - ceil_fraction 1 5 n) 0); [lia|reflexivity].
Qed.

(** A table of at most one row cannot be split: a fifth of it, rounded up,
    is all of it, and the training set would be empty.  No generator is
    consulted. *)
Lemma split_concrete_too_short (global : rng) (df : DataFrame) :
  (length (values df) <= 1)%nat ->
  split_concrete global df = Raise ValueError.
Proof.
  intros Hn. unfold split_concrete, train_test_split.
  destruct (length (values df)) as [|[|n]]; [reflexivity|reflexivity|lia].
Qed.

(** The seed decides the generator: the process-wide one is not read. *)
Lemma split_concrete_global (g g' : rng) (df : DataFrame) :
  split_concrete g df = split_concrete g' df.
Proof. reflexivity. Qed.

Context (Spec : RandomStateSpec RS).

Lemma permutation_length (s : rng) (n : nat) :
  length (fst (permutation s n)) = n.
Proof.
  rewrite (Permutation_length (permutation_spec s n)). apply length_seq.
Qed.

(** The two position lists of [ShuffleSplit] are the permutation cut in
    two. *)
Lemma shuffle_split_app (s : rng) (n n_test : nat) :
  (n_test <= n)%nat ->
  (snd (shuffle_split s n (n - n_test) n_test)
   ++ fst (shuffle_split s n (n - n_test) n_test))%list
  = fst (permutation s n).
Proof.
  intros Hle. unfold shuffle_split. simpl.
  rewrite (firstn_all2 (n := (n - n_test)%nat)).
  - apply firstn_skipn.
  - rewrite length_skipn, permutation_length. lia.
Qed.

(** C4, as the code has it.  On a table of at least two rows the notebook's
    split returns a training and a test table with the columns of the
    table; their rows are the rows at two lists of positions that share no
    position and together are a permutation of all positions, so the rows
    of the two tables together are the rows of the table; and the result is
    the same whatever the state of the process-wide generator. *)
Theorem split_concrete_partition (global : rng) (df : DataFrame) :
  (2 <= length (values df))%nat ->
  exists train test ind_train ind_test,
    split_concrete global df = Ok (train, test) /\
    columns train = columns df /\ columns test = columns df /\
    take (values df) ind_train = Some (values train) /\
    take (values df) ind_test = Some (values test) /\
    (forall i, In i ind_train -> ~ In i ind_test) /\
    Permutation (ind_test ++ ind_train) (seq 0 (length (values df))) /\
    Permutation (values test ++ values train) (values df) /\
    forall global', split_concrete global' df = Ok (train, test).
Proof.
  intros Hn. set (n := length (values df)) in *.
  pose proof (ceil_fifth_lt n Hn) as Hlt.
  set (s := seeded 42).
  set (ind := shuffle_split s n (n - ceil_fraction 1 5 n) (ceil_fraction 1 5 n)).
  assert (Happ : (snd ind ++ fst ind)%list = fst (permutation s n))
    by (apply shuffle_split_app; lia).
  assert (Hperm : Permutation (snd ind ++ fst ind) (seq 0 n))
    by (rewrite Happ; apply permutation_spec).
  destruct (take_permutation (values df) _ Hperm) as (r & Hr & Hrperm).
  destruct (take_app _ _ _ _ Hr) as (rtest & rtrain & Htest & Htrain & ->).
  exists {| columns := columns df; values := rtrain |},
         {| columns := columns df; values := rtest |},
         (fst ind), (snd ind).
  assert (Hsplit : forall g,
    split_concrete g df
    = Ok ({| columns := columns df; values := rtrain |},
          {| columns := columns df; values := rtest |})).
  { intros g. unfold split_concrete, train_test_split.
    fold n. rewrite (validate_fifth n Hn).
    cbn [bind fst snd check_random_state]. fold s. fold ind.
    unfold iloc. rewrite Htrain. cbn [bind]. now rewrite Htest. }
  repeat split; auto.
  intros i Htr Hte.
  assert (Hnodup : NoDup (snd ind ++ fst ind)).
  { apply (Permutation_NoDup (Permutation_sym Hperm)), seq_NoDup. }
  apply NoDup_app_remove_l in Hnodup as Hnd.
  apply in_split in Hte as (l1 & l2 & Hte). rewrite Hte in Hnodup.
  rewrite <- app_assoc in Hnodup. apply NoDup_app_remove_l in Hnodup.
  simpl in Hnodup. apply NoDup_cons_iff in Hnodup as [Hnotin _].
  apply Hnotin, in_or_app. now right.
Qed.

End Splitter.

Lemma split_concrete_partition_witness :
  exists train test ind_train ind_test,
    @split_concrete Examples.counter 0%nat Examples.five_rows
      = Ok (train, test) /\
    columns train = columns Examples.five_rows /\
    columns test = columns Examples.five_rows /\
    take (values Examples.five_rows) ind_train = Some (values train) /\
    take (values Examples.five_rows) ind_test = Some (values test) /\
    (forall i, In i ind_train -> ~ In i ind_test) /\
    Permutation (ind_test ++ ind_train)
                (seq 0 (length (values Examples.five_rows))) /\
    Permutation (values test ++ values train) (values Examples.five_rows) /\
    forall global',
      @split_concrete Examples.counter global' Examples.five_rows
      = Ok (train, test).
Proof.
  apply (@split_concrete_partition Examples.counter counter_spec
           0%nat Examples.five_rows).
  vm_compute. lia.
Defined.

Lemma split_concrete_too_short_witness :
  @split_concrete Examples.counter 7%nat
     {| columns := columns Examples.five_rows; values := [] |}
  = Raise ValueError.
Proof.
  apply (@split_concrete_too_short Examples.counter 7%nat
           {| columns := columns Examples.five_rows; values := [] |}).
  simpl. lia.
Defined.

(** C4, as stated, fails on a table of one row: the split raises
    [ValueError] and returns no tables. *)
Lemma split_concrete_one_row :
  @split_concrete Examples.counter 0%nat Examples.one_row = Raise ValueError.
Proof. reflexivity. Qed.

Section Search.

Context {RS : RandomState}.

(** The seed decides the generator of the search as well. *)
Lemma ParameterSampler_seeded (d : distributions) (n_iter k : nat)
  (g : rng) :
  ParameterSampler d n_iter (Some k) g = sample_n [d] n_iter (seeded k).
Proof. reflexivity. Qed.

Lemma KFold_enough (n_splits n : nat) :
  (2 <= n_splits)%nat -> (n_splits <= n)%nat ->
  KFold n_splits n = Ok (folds_from n 0 (fold_sizes n n_splits)).
Proof.
  intros Hk Hn. unfold KFold.
  destruct (Nat.leb_spec n_splits 1); [lia|].
  destruct (Nat.ltb_spec n n_splits); [lia|reflexivity].
Qed.

Lemma KFold_raises (n_splits n : nat) :
  (n_splits <= 1)%nat \/ (n < n_splits)%nat ->
  KFold n_splits n = Raise ValueError.
Proof.
  intros H. unfold KFold.
  destruct (Nat.leb_spec n_splits 1); [reflexivity|].
  destruct (Nat.ltb_spec n n_splits); [reflexivity|lia].
Qed.

Context (Spec : RandomStateSpec RS).

Lemma rvs_C_bounds (s : rng) :
  1 / 100 <= fst (rvs (dist_C param_distributions) s) < 15.
Proof.
  unfold rvs. pose proof (uniform01_spec s) as Hu.
  destruct (uniform01 s) as [u s']. simpl in *.
  unfold c_upper_bound, c_lower_bound. nra.
Qed.

Lemma choice_In {A : Type} (v : list A) (s : rng) :
  v <> [] -> exists a, fst (choice v s) = Ok a /\ In a v.
Proof.
  intros Hv. unfold choice.
  assert (Hlen : (0 < length v)%nat)
    by (destruct v; [congruence|simpl; lia]).
  pose proof (randint_spec s (length v) Hlen) as Hi.
  destruct (randint s (length v)) as [i s']. simpl in *.
  destruct (nth_error v i) as [a|] eqn:Ha.
  - exists a. split; [reflexivity|]. eapply nth_error_In; eauto.
  - apply nth_error_None in Ha. lia.
Qed.

Lemma sample_params_in_space (s : rng) :
  exists p, fst (sample_params [param_distributions] s) = Ok p /\ in_space p.
Proof.
  unfold sample_params.
  destruct (choice_In [param_distributions] s) as (d & Hd & Hdin);
    [discriminate|].
  destruct (choice [param_distributions] s) as [rd s0].
  simpl in Hd. subst rd. destruct Hdin as [<-|[]].
  pose proof (rvs_C_bounds s0) as Hc.
  destruct (rvs (dist_C param_distributions) s0) as [c s1].
  destruct (choice_In (dist_gamma param_distributions) s1) as (g & Hg & Hgin);
    [discriminate|].
  destruct (choice (dist_gamma param_distributions) s1) as [rg s2].
  destruct (choice_In (dist_kernel param_distributions) s2) as (k & Hk & Hkin);
    [discriminate|].
  destruct (choice (dist_kernel param_distributions) s2) as [rk s3].
  simpl in *. subst rg rk. simpl.
  eexists. split; [reflexivity|].
  unfold in_space. simpl. intuition.
Qed.

Lemma sample_n_in_space (n_iter : nat) (s : rng) :
  exists candidates,
    sample_n [param_distributions] n_iter s = Ok candidates /\
    length candidates = n_iter /\
    Forall in_space candidates.
Proof.
  revert s. induction n_iter as [|n IH]; intros s; simpl.
  - exists []. repeat split. constructor.
  - destruct (sample_params_in_space s) as (p & Hp & Hin).
    destruct (sample_params [param_distributions] s) as [rp s'].
    simpl in Hp. subst rp. simpl.
    destruct (IH s') as (rest & -> & Hlen & Hall). simpl.
    exists (p :: rest). repeat split; simpl; auto.
Qed.

(** What one pass of the sampler's loop draws, in the order of the draws:
    the dictionary, then [C] from the generator's next number [u] in the
    unit interval, then the position of [gamma], then the position of the
    kernel. *)
Lemma sample_params_draws (s : rng) :
  exists p,
    fst (sample_params [param_distributions] s) = Ok p /\
    let s0 := snd (choice [param_distributions] s) in
    let u := fst (uniform01 s0) in
    let s1 := snd (uniform01 s0) in
    let s2 := snd (randint s1 2) in
    0 <= u < 1 /\
    svm_reg__C p = c_lower_bound + (c_upper_bound - c_lower_bound) * u /\
    nth_error [SVR.auto; SVR.scale] (fst (randint s1 2))
      = Some (svm_reg__gamma p) /\
    nth_error [SVR.rbf; SVR.linear] (fst (randint s2 2))
      = Some (svm_reg__kernel p).
Proof.
  unfold sample_params.
  destruct (choice_In [param_distributions] s) as (d & Hd & Hdin);
    [discriminate|].
  destruct (choice [param_distributions] s) as [rd s0].
  cbn [fst snd] in *. subst rd. destruct Hdin as [<-|[]].
  unfold rvs. pose proof (uniform01_spec s0) as Hu.
  destruct (uniform01 s0) as [u s1]. cbn [fst snd] in *.
  unfold choice. cbn [dist_gamma dist_kernel param_distributions length].
  pose proof (randint_spec s1 2 ltac:(lia)) as Hg.
  destruct (randint s1 2) as [ig s2]. cbn [fst snd] in *.
  pose proof (randint_spec s2 2 ltac:(lia)) as Hk.
  destruct (randint s2 2) as [ik s3]. cbn [fst snd] in *.
  destruct ig as [|[|ig]]; [| |lia];
    (destruct ik as [|[|ik]]; [| |lia]);
    cbn [nth_error bind];
    (eexists; split; [reflexivity|]);
    cbn [svm_reg__C svm_reg__gamma svm_reg__kernel dist_C loc scale
         param_distributions];
    (split; [assumption|]); (split; [ring|]); split; reflexivity.
Qed.

Lemma sample_n_draws (n_iter : nat) (s : rng) (candidates : list params) :
  sample_n [param_distributions] n_iter s = Ok candidates ->
  forall i p, nth_error candidates i = Some p ->
    let s0 :=
      snd (choice [param_distributions]
             (Nat.iter i
                (fun s => snd (sample_params [param_distributions] s)) s)) in
    let u := fst (uniform01 s0) in
    let s1 := snd (uniform01 s0) in
    let s2 := snd (randint s1 2) in
    0 <= u < 1 /\
    svm_reg__C p = c_lower_bound + (c_upper_bound - c_lower_bound) * u /\
    nth_error [SVR.auto; SVR.scale] (fst (randint s1 2))
      = Some (svm_reg__gamma p) /\
    nth_error [SVR.rbf; SVR.linear] (fst (randint s2 2))
      = Some (svm_reg__kernel p).
Proof.
  revert s candidates. induction n_iter as [|n IH]; intros s candidates.
  - intros [= <-] [|i] p; discriminate.
  - cbn [sample_n].
    destruct (sample_params_draws s) as (q & Hq & Hdraws).
    destruct (sample_params [param_distributions] s) as [rq s'] eqn:Hs.
    cbn [fst] in Hq. subst rq. cbn [bind].
    destruct (sample_n [param_distributions] n s') as [rest|e] eqn:Hrest;
      cbn [bind]; [|discriminate].
    intros [= <-] [|i] p Hp.
    + injection Hp as <-. exact Hdraws.
    + cbn [nth_error] in Hp. rewrite Nat.iter_succ_r, Hs. cbn [snd].
      exact (IH s' rest Hrest i p Hp).
Qed.

(** C8.  Every list of candidates the sampler draws from the notebook's
    [param_distributions] is drawn without error, has the length asked for,
    and holds only configurations with kernel [rbf] or [linear], gamma
    [auto] or [scale], and [0.01 <= C < 15.0].  Each candidate is what the
    generator draws for it: the candidate at position [i] is drawn in the
    state the generator is in after the [i] candidates before it; its [C]
    is [0.01 + (15.0 - 0.01) * u] for the number [u] the generator then
    draws from the unit interval, [0 <= u < 1], and its [gamma] and kernel
    are the entries of the two lists at the positions the generator draws
    next. *)
Theorem ParameterSampler_in_space (n_iter : nat) (random_state : option nat)
  (global : rng) :
  exists candidates,
    ParameterSampler param_distributions n_iter random_state global
      = Ok candidates /\
    length candidates = n_iter /\
    Forall in_space candidates /\
    forall i p, nth_error candidates i = Some p ->
      let s0 :=
        snd (choice [param_distributions]
               (Nat.iter i
                  (fun s => snd (sample_params [param_distributions] s))
                  (check_random_state random_state global))) in
      let u := fst (uniform01 s0) in
      let s1 := snd (uniform01 s0) in
      let s2 := snd (randint s1 2) in
      0 <= u < 1 /\
      svm_reg__C p = c_lower_bound + (c_upper_bound - c_lower_bound) * u /\
      nth_error [SVR.auto; SVR.scale] (fst (randint s1 2))
        = Some (svm_reg__gamma p) /\
      nth_error [SVR.rbf; SVR.linear] (fst (randint s2 2))
        = Some (svm_reg__kernel p).
Proof.
  unfold ParameterSampler.
  destruct (sample_n_in_space n_iter
              (check_random_state random_state global))
    as (candidates & Hs & Hlen & Hall).
  exists candidates. repeat (split; [assumption|]).
  exact (sample_n_draws n_iter _ candidates Hs).
Qed.

End Search.

Lemma ParameterSampler_in_space_witness :
  exists candidates,
    @ParameterSampler Examples.counter param_distributions 50
       (Some 42%nat) 0%nat = Ok candidates /\
    length candidates = 50%nat /\
    Forall in_space candidates /\
    forall i p, nth_error candidates i = Some p ->
      let s0 :=
        snd (@choice Examples.counter _ [param_distributions]
               (Nat.iter i
                  (fun s =>
                     snd (@sample_params Examples.counter
                            [param_distributions] s))
                  (@check_random_state Examples.counter
                     (Some 42%nat) 0%nat))) in
      let u := fst (@uniform01 Examples.counter s0) in
      let s1 := snd (@uniform01 Examples.counter s0) in
      let s2 := snd (@randint Examples.counter s1 2) in
      0 <= u < 1 /\
      svm_reg__C p = c_lower_bound + (c_upper_bound - c_lower_bound) * u /\
      nth_error [SVR.auto; SVR.scale]
        (fst (@randint Examples.counter s1 2))
        = Some (svm_reg__gamma p) /\
      nth_error [SVR.rbf; SVR.linear]
        (fst (@randint Examples.counter s2 2))
        = Some (svm_reg__kernel p).
Proof.
  apply (@ParameterSampler_in_space Examples.counter counter_spec
           50%nat (Some 42%nat) 0%nat).
Defined.

(** Without a seed the candidates do follow the process-wide generator:
    the seed is what makes the search reproducible. *)
Lemma ParameterSampler_unseeded :
  @ParameterSampler Examples.counter param_distributions 1 None 0%nat
  <> @ParameterSampler Examples.counter param_distributions 1 None 1%nat.
Proof.
  unfold ParameterSampler, check_random_state, sample_n, sample_params,
    rvs, choice, param_distributions, c_upper_bound, c_lower_bound.
  simpl. intros H. injection H as H. lra.
Qed.

(* ================================================================== *)
(** * Properties of the evaluator *)

Lemma sq_nonneg (x : R) : 0 <= sq x.
Proof. unfold sq. nra. Qed.

Lemma Rsum_nonneg (l : list R) : Forall (fun x => 0 <= x) l -> 0 <= Rsum l.
Proof.
  unfold Rsum. induction 1 as [|x l Hx _ IH]; simpl; lra.
Qed.

Lemma Rmean_nonneg (l : list R) :
  l <> [] -> Forall (fun x => 0 <= x) l -> 0 <= Rmean l.
Proof.
  intros Hne Hall. unfold Rmean.
  assert (Hn : 0 < INR (length l)).
  { apply lt_0_INR. destruct l; [congruence|simpl; lia]. }
  apply Rsum_nonneg in Hall.
  apply Rmult_le_pos; [assumption|]. left. now apply Rinv_0_lt_compat.
Qed.

Lemma squares_nonneg (a b : list R) :
  Forall (fun x => 0 <= x) (map (fun p => sq (fst p - snd p)) (combine a b)).
Proof.
  apply Forall_forall. intros x Hx.
  apply in_map_iff in Hx as (p & <- & _). apply sq_nonneg.
Qed.

Lemma sqrt_finite_nonneg (x : R) :
  0 <= x -> Np.sqrt (Finite x) = Finite (R_sqrt.sqrt x).
Proof. intros Hx. simpl. destruct (Rlt_dec x 0); [lra|reflexivity]. Qed.

Lemma sqrt_finite_negative (x : R) : x < 0 -> Np.sqrt (Finite x) = NaN.
Proof. intros Hx. simpl. destruct (Rlt_dec x 0); [reflexivity|lra]. Qed.

Section EvaluatorProperties.

Context {T : StudentT}.

Lemma ppf_inside (q : R) (df : nat) (l s : R) :
  (1 <= df)%nat -> 0 < s -> 0 < q < 1 ->
  ppf q df (Finite l) (Finite s) = Finite (t_ppf q df * s + l).
Proof.
  intros Hdf Hs [Hq0 Hq1]. unfold ppf.
  destruct (Nat.leb_spec 1 df); [|lia].
  destruct (Rlt_dec 0 s); [|contradiction].
  destruct (Rlt_dec 0 q); [|contradiction].
  destruct (Rlt_dec q 1); [reflexivity|contradiction].
Qed.

(** A standard error of zero, or none at all, leaves no interval. *)
Lemma ppf_no_scale (q : R) (df : nat) (loc : float64) (s : R) :
  s <= 0 -> ppf q df loc (Finite s) = NaN.
Proof.
  intros Hs. unfold ppf. destruct loc; try reflexivity.
  destruct (1 <=? df)%nat; [|reflexivity].
  destruct (Rlt_dec 0 s); [lra|reflexivity].
Qed.

Lemma ppf_nan_scale (q : R) (df : nat) (loc : float64) :
  ppf q df loc NaN = NaN.
Proof. unfold ppf. now destruct loc. Qed.

Lemma ppf_no_df (q : R) (loc scale : float64) : ppf q 0 loc scale = NaN.
Proof. unfold ppf. now destruct loc, scale. Qed.

Lemma squared_errors_same_length (y_pred y_test : list R) :
  length y_pred = length y_test ->
  squared_errors y_pred y_test
  = Ok (map (fun pa => sq (fst pa - snd pa)) (combine y_pred y_test)).
Proof. intros H. unfold squared_errors. now rewrite H, Nat.eqb_refl. Qed.

(** One test row: the standard error is a division by zero, and both
    bounds are [nan] whatever the quantile function. *)
Lemma confidence_interval_one_row (p a : R) :
  confidence_interval [p] [a] = Ok (NaN, NaN).
Proof. reflexivity. Qed.

Lemma sem_two (a : list R) :
  (2 <= length a)%nat -> exists s, sem a = Finite s /\ 0 <= s.
Proof.
  intros Hn. unfold sem.
  destruct (Nat.ltb_spec (length a) 2); [lia|].
  eexists. split; [reflexivity|].
  apply Rmult_le_pos; [apply sqrt_pos|].
  left. apply Rinv_0_lt_compat, sqrt_lt_R0, lt_0_INR. lia.
Qed.

Context (Spec : StudentTSpec T).

Lemma t_ppf_lower (df : nat) :
  (1 <= df)%nat -> t_ppf ((1 - confidence) / 2) df <= 0.
Proof.
  intros Hdf. rewrite <- (t_ppf_median df Hdf).
  apply t_ppf_monotone; unfold confidence; auto; lra.
Qed.

Lemma t_ppf_upper (df : nat) :
  (1 <= df)%nat -> 0 <= t_ppf ((1 + confidence) / 2) df.
Proof.
  intros Hdf. rewrite <- (t_ppf_median df Hdf).
  apply t_ppf_monotone; unfold confidence; auto; lra.
Qed.

(** The square roots of the bounds of the interval around a mean [m >= 0]:
    both [nan]; or a lower bound [nan] under a non-negative upper bound; or
    two numbers, [0 <= lower <= upper]. *)
Lemma sqrt_interval_cases (df : nat) (m : R) (scale : float64) :
  0 <= m ->
  (scale = NaN \/ exists s, scale = Finite s) ->
  let iv := interval confidence df (Finite m) scale in
  let lo := Np.sqrt (fst iv) in
  let hi := Np.sqrt (snd iv) in
  (lo = NaN /\ hi = NaN) \/
  (lo = NaN /\ le64 (Finite 0) hi) \/
  (le64 (Finite 0) lo /\ le64 lo hi /\ le64 (Finite 0) hi).
Proof.
  intros Hm [->|[s ->]]; cbv zeta; unfold interval; cbn [fst snd].
  - left. now rewrite !ppf_nan_scale.
  - destruct df as [|df].
    { left. now rewrite !ppf_no_df. }
    destruct (Rle_lt_dec s 0) as [Hs|Hs].
    { left. now rewrite !(ppf_no_scale _ _ _ s Hs). }
    assert (Hdf : (1 <= S df)%nat) by lia.
    pose proof (t_ppf_lower (S df) Hdf) as Hlo.
    pose proof (t_ppf_upper (S df) Hdf) as Hhi.
    rewrite !ppf_inside by (auto; unfold confidence; lra).
    set (tlo := t_ppf ((1 - confidence) / 2) (S df)) in *.
    set (thi := t_ppf ((1 + confidence) / 2) (S df)) in *.
    assert (Hhi2 : 0 <= thi * s + m) by nra.
    rewrite (sqrt_finite_nonneg _ Hhi2).
    destruct (Rlt_dec (tlo * s + m) 0) as [Hneg|Hpos].
    + right. left. rewrite (sqrt_finite_negative _ Hneg).
      split; [reflexivity|]. simpl. apply sqrt_pos.
    + right. right. apply Rnot_lt_le in Hpos.
      rewrite (sqrt_finite_nonneg _ Hpos). simpl.
      repeat split; try apply sqrt_pos.
      apply sqrt_le_1_alt. nra.
Qed.

(** C2, as the code has it.  On a non-empty test set with one prediction
    per row, [rmse] is a non-negative number, and [confidence_interval] is
    a pair of bounds of which one of three holds: both are [nan]; the lower
    one is [nan] and the upper one is non-negative; both are numbers with
    [0 <= lower <= upper]. *)
Theorem evaluator_bounds (y_pred y_test : list R) :
  length y_pred = length y_test ->
  y_test <> [] ->
  (exists r, rmse y_pred y_test = Ok r /\ 0 <= r) /\
  (exists lo hi,
     confidence_interval y_pred y_test = Ok (lo, hi) /\
     ((lo = NaN /\ hi = NaN) \/
      (lo = NaN /\ le64 (Finite 0) hi) \/
      (le64 (Finite 0) lo /\ le64 lo hi /\ le64 (Finite 0) hi))).
Proof.
  intros Hlen Hne. split.
  - unfold rmse, mean_squared_error.
    rewrite Hlen, Nat.eqb_refl. cbn [negb].
    destruct (Nat.ltb_spec (length y_test) 1) as [H|_].
    { destruct y_test; [congruence|simpl in H; lia]. }
    eexists. split; [reflexivity|apply sqrt_pos].
  - unfold confidence_interval.
    rewrite (squared_errors_same_length _ _ Hlen). cbn [bind].
    set (se := map (fun pa => sq (fst pa - snd pa)) (combine y_pred y_test)).
    assert (Hse : se <> []).
    { unfold se. destruct y_pred, y_test; simpl in *; congruence. }
    assert (Hmean : mean se = Finite (Rmean se))
      by (destruct se; [congruence|reflexivity]).
    do 2 eexists. split; [reflexivity|]. rewrite Hmean.
    apply sqrt_interval_cases.
    + apply Rmean_nonneg; [assumption|apply squares_nonneg].
    + unfold sem. destruct (length se <? 2)%nat; [now left|right; eauto].
Qed.

End EvaluatorProperties.

(** The closed form for two degrees of freedom is a quantile function in
    the sense of [StudentTSpec]. *)
Lemma t2_spec : StudentTSpec Examples.t2.
Proof.
  constructor.
  - intros df q1 q2 _ Hq1 Hq12 Hq2. simpl.
    assert (HD1 : 0 < 2 * q1 * (1 - q1)) by nra.
    assert (HD2 : 0 < 2 * q2 * (1 - q2)) by nra.
    pose proof (sqrt_lt_R0 _ HD1) as Hd1.
    pose proof (sqrt_lt_R0 _ HD2) as Hd2.
    set (d1 := R_sqrt.sqrt (2 * q1 * (1 - q1))) in *.
    set (d2 := R_sqrt.sqrt (2 * q2 * (1 - q2))) in *.
    assert (Hcross : (2 * q1 - 1) * d2 <= (2 * q2 - 1) * d1).
    { destruct (Rle_lt_dec (2 * q1 - 1) 0) as [Ha1|Ha1];
        destruct (Rle_lt_dec 0 (2 * q2 - 1)) as [Ha2|Ha2].
      - nra.
      - assert (Hd : d1 <= d2) by (apply sqrt_le_1_alt; nra). nra.
      - assert (Hd : d2 <= d1) by (apply sqrt_le_1_alt; nra). nra.
      - lra. }
    apply (Rmult_le_reg_r (d1 * d2)); [nra|].
    unfold Rdiv.
    replace ((2 * q1 - 1) * / d1 * (d1 * d2)) with ((2 * q1 - 1) * d2)
      by (field; lra).
    replace ((2 * q2 - 1) * / d2 * (d1 * d2)) with ((2 * q2 - 1) * d1)
      by (field; lra).
    exact Hcross.
  - intros df _. simpl. unfold Rdiv.
    replace (2 * (1 * / 2) - 1) with 0 by lra. ring.
Qed.

(** At two degrees of freedom the lower quantile of the 0.95 interval is
    below -1 (it is about -4.3), and above -5. *)
Lemma t2_lower_quantile :
  -5 < @t_ppf Examples.t2 ((1 - confidence) / 2) 2 < -1.
Proof.
  simpl. unfold confidence.
  replace (2 * ((1 - 95 / 100) / 2) - 1) with (- (19 / 20)) by lra.
  replace (2 * ((1 - 95 / 100) / 2) * (1 - (1 - 95 / 100) / 2))
    with (39 / 800) by lra.
  set (d := R_sqrt.sqrt (39 / 800)).
  assert (Hlow : 1 / 5 < d).
  { rewrite <- (sqrt_square (1 / 5)) by lra.
    apply sqrt_lt_1_alt. lra. }
  assert (Hup : d < 19 / 20).
  { rewrite <- (sqrt_square (19 / 20)) by lra.
    apply sqrt_lt_1_alt. lra. }
  assert (Hinv : d * / d = 1) by (apply Rinv_r; lra).
  assert (Hpos : 0 < / d) by (apply Rinv_0_lt_compat; lra).
  unfold Rdiv. split; nra.
Qed.

Lemma sqrt_ratio (k : R) :
  0 <= k -> R_sqrt.sqrt (k * k * 3) / R_sqrt.sqrt 3 = k.
Proof.
  intros Hk. rewrite sqrt_mult by nra. rewrite (sqrt_square k Hk).
  assert (H3 : 0 < R_sqrt.sqrt 3) by (apply sqrt_lt_R0; lra).
  field. lra.
Qed.

(** The test rows of [y_pred3]: squared errors 0, 0, 9; their mean is 3 and
    their standard error is 3. *)
Lemma y_pred3_statistics :
  squared_errors Examples.y_pred3 Examples.y_test3
    = Ok [sq (30 - 30); sq (40 - 40); sq (53 - 50)] /\
  mean [sq (30 - 30); sq (40 - 40); sq (53 - 50)] = Finite 3 /\
  sem [sq (30 - 30); sq (40 - 40); sq (53 - 50)] = Finite 3.
Proof.
  split; [reflexivity|]. split.
  - unfold mean, Rmean, Rsum, sq. simpl. f_equal. lra.
  - unfold sem, Rmean, Rsum, sq. simpl. f_equal.
    match goal with
    | |- R_sqrt.sqrt ?v / R_sqrt.sqrt ?n = _ =>
        replace v with (3 * 3 * 3) by lra; replace n with 3 by lra
    end.
    apply sqrt_ratio. lra.
Qed.

(** C2, as stated, fails on three test rows of which one is off by 3: the
    mean squared error is 3, its standard error 3, the lower end of the t
    interval is 3 - 4.3 * 3, and the square root of that negative number is
    [nan]: no lower bound below the upper one, and not a non-negative one. *)
Lemma evaluator_bounds_lower_nan :
  exists lo hi,
    @confidence_interval Examples.t2 Examples.y_pred3 Examples.y_test3
      = Ok (lo, hi) /\
    lo = NaN /\ ~ le64 lo hi /\ ~ le64 (Finite 0) lo.
Proof.
  destruct y_pred3_statistics as (Hse & Hmean & Hsem).
  unfold confidence_interval. rewrite Hse. cbn [bind].
  rewrite Hmean, Hsem. cbn [length Nat.sub]. unfold interval. cbn [fst snd].
  rewrite !ppf_inside by (try lia; unfold confidence; lra).
  pose proof t2_lower_quantile as [_ Hq].
  rewrite sqrt_finite_negative by lra.
  do 2 eexists. split; [reflexivity|]. split; [reflexivity|].
  split; simpl; tauto.
Qed.

Lemma evaluator_bounds_witness :
  (exists r, @rmse Examples.y_pred3' Examples.y_test3 = Ok r /\ 0 <= r) /\
  (exists lo hi,
     @confidence_interval Examples.t2 Examples.y_pred3' Examples.y_test3
       = Ok (lo, hi) /\
     ((lo = NaN /\ hi = NaN) \/
      (lo = NaN /\ le64 (Finite 0) hi) \/
      (le64 (Finite 0) lo /\ le64 lo hi /\ le64 (Finite 0) hi))).
Proof.
  apply (@evaluator_bounds Examples.t2 t2_spec
           Examples.y_pred3' Examples.y_test3).
  - reflexivity.
  - discriminate.
Defined.

(** The test rows of [y_pred3']: squared errors 100, 100, 121; their mean
    is 107 and their standard error is 7. *)
Lemma y_pred3'_statistics :
  squared_errors Examples.y_pred3' Examples.y_test3
    = Ok [sq (40 - 30); sq (50 - 40); sq (61 - 50)] /\
  mean [sq (40 - 30); sq (50 - 40); sq (61 - 50)] = Finite 107 /\
  sem [sq (40 - 30); sq (50 - 40); sq (61 - 50)] = Finite 7.
Proof.
  split; [reflexivity|]. split.
  - unfold mean, Rmean, Rsum, sq. simpl. f_equal. lra.
  - unfold sem, Rmean, Rsum, sq. simpl. f_equal.
    match goal with
    | |- R_sqrt.sqrt ?v / R_sqrt.sqrt ?n = _ =>
        replace v with (7 * 7 * 3) by lra; replace n with 3 by lra
    end.
    apply sqrt_ratio. lra.
Qed.

(** On those rows both bounds are numbers: the lower end of the t interval,
    107 - 4.3 * 7, is positive. *)
Lemma confidence_interval_numbers :
  exists lo hi,
    @confidence_interval Examples.t2 Examples.y_pred3' Examples.y_test3
      = Ok (Finite lo, Finite hi) /\
    0 <= lo <= hi.
Proof.
  destruct y_pred3'_statistics as (Hse & Hmean & Hsem).
  unfold confidence_interval. rewrite Hse. cbn [bind].
  rewrite Hmean, Hsem. cbn [length Nat.sub]. unfold interval. cbn [fst snd].
  rewrite !ppf_inside by (try lia; unfold confidence; lra).
  pose proof t2_lower_quantile as [Hq _].
  pose proof (@t_ppf_lower Examples.t2 t2_spec 2 ltac:(lia)) as Hlo.
  pose proof (@t_ppf_upper Examples.t2 t2_spec 2 ltac:(lia)) as Hhi.
  rewrite !sqrt_finite_nonneg by lra.
  do 2 eexists. split; [reflexivity|].
  split; [apply sqrt_pos|]. apply sqrt_le_1_alt. lra.
Qed.

Lemma Rsum_zeros (l : list R) : Forall (fun x => x = 0) l -> Rsum l = 0.
Proof.
  unfold Rsum. induction 1 as [|x l -> _ IH]; simpl; [reflexivity|].
  rewrite IH. ring.
Qed.

(** Predictions that are all exact: the squared errors are all zero, their
    standard error is zero (or [nan], on a single row), and both bounds are
    [nan], whatever the quantile function. *)
Lemma confidence_interval_exact_predictions {T : StudentT} (y : list R) :
  y <> [] -> confidence_interval y y = Ok (NaN, NaN).
Proof.
  intros Hy. unfold confidence_interval.
  rewrite squared_errors_same_length by reflexivity. cbn [bind].
  set (se := map (fun pa => sq (fst pa - snd pa)) (combine y y)).
  assert (Hzero : Forall (fun x => x = 0) se).
  { unfold se. apply Forall_forall. intros x Hx.
    apply in_map_iff in Hx as ([p a] & <- & Hin).
    apply in_combine_l in Hin as Hp.
    assert (Heq : p = a).
    { clear -Hin. induction y as [|b y IH]; simpl in Hin; [contradiction|].
      destruct Hin as [[= <- <-]|Hin]; auto. }
    subst a. simpl. unfold sq. ring. }
  assert (Hsem : sem se = NaN \/ sem se = Finite 0).
  { unfold sem. destruct (length se <? 2)%nat; [now left|right].
    f_equal. rewrite (Rsum_zeros (map _ se)).
    - unfold Rdiv. rewrite Rmult_0_l, sqrt_0. ring.
    - apply Forall_forall. intros x Hx.
      apply in_map_iff in Hx as (z & <- & Hz).
      unfold Rmean. rewrite (Rsum_zeros se Hzero).
      rewrite Forall_forall in Hzero. rewrite (Hzero z Hz).
      unfold sq, Rdiv. ring. }
  unfold interval. cbn [fst snd].
  destruct Hsem as [-> | ->].
  - now rewrite !ppf_nan_scale.
  - now rewrite !ppf_no_scale by lra.
Qed.

Lemma confidence_interval_exact_predictions_witness :
  @confidence_interval Examples.t2 Examples.y_test3 Examples.y_test3
  = Ok (NaN, NaN).
Proof.
  apply (@confidence_interval_exact_predictions Examples.t2 Examples.y_test3).
  discriminate.
Defined.

(* ================================================================== *)
(** * Further properties of the adapter *)

Section AdapterMore.

Context {M : Libm}.

Implicit Types (self : LogTransformer) (df : DataFrame) (X Y : ndarray).

Lemma exp_log_non_positive (r : R) :
  r <= 0 ->
  Np.exp (Np.log (Finite r)) = if Req_dec_T r 0 then Finite 0 else NaN.
Proof.
  intros Hr. simpl. destruct (Rlt_dec 0 r) as [Hpos|_]; [lra|].
  destruct (Req_dec_T r 0); reflexivity.
Qed.

(** The round trip where it is not the identity, element by element, on any
    array [transform] accepts: a zero comes back as zero (through [-inf]),
    a negative number comes back as [nan]. *)
Theorem inverse_transform_transform_item self df X i j r :
  shape1 X = df_shape1 df ->
  all_finite X = true -> (1 <= shape0 X)%nat -> (1 <= shape1 X)%nat ->
  item X i j = Some (Finite r) ->
  r <= 0 ->
  exists Y,
    transform (fit self df) X = Ok Y /\
    item (inverse_transform (fit self df) Y) i j
      = Some (if Req_dec_T r 0 then Finite 0 else NaN).
Proof.
  intros Hcols Hfin Hrows Hcol1 Hitem Hr.
  exists (ufunc Np.log X). split.
  - rewrite (transform_accepted self df X Hfin Hrows Hcol1).
    now rewrite Hcols, Nat.eqb_refl.
  - unfold inverse_transform. rewrite !item_ufunc, Hitem. simpl option_map.
    f_equal. now apply exp_log_non_positive.
Qed.

(** [fit_transform], which is how the column transformer calls the adapter,
    never meets the not-fitted error nor the assertion on the column count:
    on a table of finite numbers with a row and a column it returns their
    logarithms, on any other table it raises [ValueError]. *)
Theorem fit_transform_outcome self (X : DataFrame) :
  (all_finite (to_numpy X) = true ->
   (1 <= length (values X))%nat -> (1 <= df_shape1 X)%nat ->
   fit_transform self X = Ok (ufunc Np.log (to_numpy X))) /\
  (all_finite (to_numpy X) = false \/ values X = [] \/ columns X = [] ->
   fit_transform self X = Raise ValueError).
Proof.
  unfold fit_transform. split.
  - intros Hfin Hrows Hcols.
    rewrite (transform_accepted self X (to_numpy X) Hfin Hrows Hcols).
    simpl. now rewrite Nat.eqb_refl.
  - intros H. rewrite transform_fit. unfold check_array.
    destruct (all_finite (to_numpy X)) eqn:Hfin; [|reflexivity].
    destruct H as [H|[H|H]]; [discriminate| |].
    + cbn [negb]. unfold shape0. simpl. now rewrite H.
    + cbn [negb]. destruct (shape0 (to_numpy X) <? 1)%nat; [reflexivity|].
      unfold to_numpy, df_shape1. simpl. now rewrite H.
Qed.

End AdapterMore.

Lemma inverse_transform_transform_item_witness :
  exists Y,
    @transform Examples.rounding (fit __init__ Examples.age_df)
      Examples.with_zero = Ok Y /\
    item (@inverse_transform Examples.rounding
            (fit __init__ Examples.age_df) Y) 1 0
      = Some (if Req_dec_T (-1) 0 then Finite 0 else NaN).
Proof.
  apply (@inverse_transform_transform_item Examples.rounding __init__
           Examples.age_df Examples.with_zero 1 0 (-1)).
  - reflexivity.
  - reflexivity.
  - vm_compute. lia.
  - vm_compute. lia.
  - reflexivity.
  - lra.
Defined.

Lemma fit_transform_outcome_witness :
  @fit_transform Examples.rounding Examples.log_transformer Examples.age_df
    = Ok (ufunc (@Np.log Examples.rounding) (to_numpy Examples.age_df)) /\
  @fit_transform Examples.rounding __init__
      {| columns := columns Examples.age_df; values := [] |}
    = Raise ValueError.
Proof.
  split.
  - apply (proj1 (@fit_transform_outcome Examples.rounding
                    Examples.log_transformer Examples.age_df)).
    + reflexivity.
    + vm_compute. lia.
    + vm_compute. lia.
  - apply (proj2 (@fit_transform_outcome Examples.rounding __init__
                    {| columns := columns Examples.age_df; values := [] |})).
    right. left. reflexivity.
Defined.

(* ================================================================== *)
(** * Properties of the column lists and of the views *)

Section Views.

Lemma not_in_spec (col : string) (l : list string) :
  not_in col l = true <-> ~ In col l.
Proof.
  unfold not_in. rewrite negb_true_iff. split.
  - intros H Hin. apply not_true_iff_false in H. apply H.
    apply existsb_exists. exists col. split; [assumption|].
    apply String.eqb_refl.
  - intros H. apply not_true_iff_false. intros Hex.
    apply existsb_exists in Hex as (x & Hx & Heq).
    apply String.eqb_eq in Heq. subst x. contradiction.
Qed.

Lemma get_locs_absent (c : string) (cols : list string) (from : nat) :
  ~ In c cols -> get_locs c cols from = [].
Proof.
  revert from. induction cols as [|d cols IH]; intros from Hnin; simpl.
  - reflexivity.
  - destruct (String.eqb_spec d c) as [->|_].
    + exfalso. apply Hnin. now left.
    + simpl. apply IH. intros H. apply Hnin. now right.
Qed.

(** Under unique labels a label that is a column has one position. *)
Lemma get_locs_unique (c : string) (cols : list string) (from : nat) :
  NoDup cols -> In c cols ->
  exists j, get_locs c cols from = [(from + j)%nat] /\
            nth_error cols j = Some c.
Proof.
  revert from. induction cols as [|d cols IH]; intros from Hnd Hin.
  - contradiction.
  - apply NoDup_cons_iff in Hnd as [Hnotin Hnd]. simpl.
    destruct (String.eqb_spec d c) as [->|Hne].
    + exists 0%nat. rewrite (get_locs_absent c cols _ Hnotin).
      now rewrite Nat.add_0_r.
    + destruct Hin as [Heq|Hin]; [contradiction|].
      destruct (IH (S from) Hnd Hin) as (j & Hlocs & Hnth).
      exists (S j). simpl. rewrite Hlocs. split; [|assumption].
      f_equal. lia.
Qed.

Lemma get_locs_index_of (c : string) (cols : list string) :
  NoDup cols -> In c cols ->
  get_locs c cols 0 = [index_of cols c] /\
  nth_error cols (index_of cols c) = Some c.
Proof.
  intros Hnd Hin. destruct (get_locs_unique c cols 0 Hnd Hin) as (j & H & Hj).
  unfold index_of. rewrite H. simpl. auto.
Qed.

Lemma flat_map_get_locs (cols key : list string) :
  NoDup cols -> incl key cols ->
  flat_map (fun k => get_locs k cols 0) key = map (index_of cols) key.
Proof.
  intros Hnd. induction key as [|k key IH]; intros Hincl; simpl.
  - reflexivity.
  - destruct (get_locs_index_of k cols Hnd (Hincl k (or_introl eq_refl)))
      as [-> _].
    simpl. f_equal. apply IH. intros c Hc. apply Hincl. now right.
Qed.

Lemma filter_not_in_incl (cols key : list string) :
  incl key cols -> filter (fun k => not_in k cols) key = [].
Proof.
  induction key as [|k key IH]; intros Hincl; simpl; [reflexivity|].
  destruct (not_in k cols) eqn:Hk.
  - apply not_in_spec in Hk. exfalso. apply Hk, Hincl. now left.
  - apply IH. intros c Hc. apply Hincl. now right.
Qed.

Lemma getitem_found (df : DataFrame) (key : list string) :
  NoDup (columns df) -> incl key (columns df) ->
  getitem df key
  = Found (iloc_columns df (map (index_of (columns df)) key)).
Proof.
  intros Hnd Hincl. unfold getitem.
  rewrite (filter_not_in_incl _ _ Hincl).
  now rewrite (flat_map_get_locs _ _ Hnd Hincl).
Qed.

Lemma iloc_columns_labels (df : DataFrame) (key : list string) :
  NoDup (columns df) -> incl key (columns df) ->
  columns (iloc_columns df (map (index_of (columns df)) key)) = key.
Proof.
  intros Hnd Hincl. simpl. rewrite map_map.
  rewrite <- (map_id key) at 2. apply map_ext_in. intros c Hc.
  destruct (get_locs_index_of c _ Hnd (Hincl c Hc)) as [_ Hnth].
  now apply nth_error_nth.
Qed.

Lemma iloc_columns_rows (df : DataFrame) (idx : list nat) :
  length (values (iloc_columns df idx)) = length (values df) /\
  frame_ok (iloc_columns df idx).
Proof.
  split; simpl.
  - apply length_map.
  - unfold frame_ok. simpl. apply Forall_forall. intros row Hrow.
    apply in_map_iff in Hrow as (r & <- & _). now rewrite !length_map.
Qed.

(** A column selected by label holds what the column of the frame held. *)
Lemma iloc_columns_series (df : DataFrame) (key : list string) (c : string) :
  NoDup (columns df) -> incl key (columns df) -> NoDup key -> In c key ->
  series (iloc_columns df (map (index_of (columns df)) key)) c = series df c.
Proof.
  intros Hnd Hincl Hkey Hc. unfold series.
  rewrite (iloc_columns_labels df key Hnd Hincl).
  destruct (get_locs_unique c key 0 Hkey Hc) as (k & -> & Hk).
  destruct (get_locs_index_of c _ Hnd (Hincl c Hc)) as [-> _].
  simpl. f_equal. rewrite map_map. apply map_ext. intros row.
  apply nth_error_nth. rewrite nth_error_map, nth_error_map, Hk. reflexivity.
Qed.

Lemma filter_all {A : Type} (f : A -> bool) (l : list A) :
  (forall x, In x l -> f x = true) -> filter f l = l.
Proof.
  induction l as [|a l IH]; intros H; simpl; [reflexivity|].
  rewrite (H a (or_introl eq_refl)). f_equal. apply IH.
  intros x Hx. apply H. now right.
Qed.

(** Taking one label out of unique labels leaves all the others, once. *)
Lemma filter_out_label (a : string) (l : list string) :
  NoDup l -> In a l ->
  Permutation (filter (fun c => negb (String.eqb c a)) l ++ [a]) l.
Proof.
  induction l as [|d l IH]; intros Hnd Hin; [contradiction|].
  apply NoDup_cons_iff in Hnd as [Hnotin Hnd]. simpl.
  destruct (String.eqb_spec d a) as [->|Hne]; simpl.
  - rewrite filter_all.
    + apply Permutation_sym, Permutation_cons_append.
    + intros x Hx. apply negb_true_iff, String.eqb_neq.
      intros ->. contradiction.
  - destruct Hin as [Heq|Hin]; [contradiction|].
    constructor. now apply IH.
Qed.

Lemma normal_features_filter (X_train : DataFrame) :
  normal_features X_train
  = filter (fun c => negb (String.eqb c "age")) (columns X_train).
Proof.
  unfold normal_features. apply filter_ext. intros c.
  unfold not_in, log_features. simpl. now rewrite orb_false_r.
Qed.

Lemma feature_cols_spec (df : DataFrame) (c : string) :
  In c (feature_cols df) <-> In c (columns df) /\ c <> label_col.
Proof.
  unfold feature_cols. rewrite filter_In, negb_true_iff.
  now rewrite String.eqb_neq.
Qed.

(** The three column lists.  For a table with unique column labels
    that holds the target "csMPa" and the column "age", and its features
    view [X_train]: the normal features, the log features and the target
    together are the columns of the table, each once; no normal feature is a
    log feature, and the target is no feature. *)
Theorem columns_used_once (concrete_df X_train : DataFrame) :
  columns X_train = feature_cols concrete_df ->
  NoDup (columns concrete_df) ->
  In label_col (columns concrete_df) ->
  In "age"%string (columns concrete_df) ->
  Permutation (normal_features X_train ++ log_features ++ [label_col])
              (columns concrete_df) /\
  (forall c, In c (normal_features X_train) -> ~ In c log_features) /\
  ~ In label_col (feature_cols concrete_df).
Proof.
  intros HX Hnd Hlabel Hage. split; [|split].
  - assert (Hfeat : Permutation (feature_cols concrete_df ++ [label_col])
                                (columns concrete_df))
      by (now apply filter_out_label).
    assert (Hnd' : NoDup (feature_cols concrete_df))
      by (now apply NoDup_filter).
    assert (Hage' : In "age"%string (feature_cols concrete_df))
      by (apply feature_cols_spec; split; [assumption|discriminate]).
    rewrite <- HX in Hnd', Hage'.
    pose proof (filter_out_label "age" (columns X_train) Hnd' Hage') as Hn.
    rewrite <- normal_features_filter in Hn.
    rewrite app_assoc. etransitivity; [|exact Hfeat].
    apply Permutation_app_tail. now rewrite <- HX.
  - intros c Hc. rewrite normal_features_filter in Hc.
    apply filter_In in Hc as [_ Hc].
    apply negb_true_iff, String.eqb_neq in Hc.
    intros [Heq|[]]. now apply Hc.
  - intros H. apply feature_cols_spec in H as [_ H]. now apply H.
Qed.

Lemma columns_used_once_witness :
  Permutation
    (normal_features
       {| columns := feature_cols Examples.concrete3; values := [] |}
     ++ log_features ++ [label_col])
    (columns Examples.concrete3) /\
  (forall c,
     In c (normal_features
             {| columns := feature_cols Examples.concrete3; values := [] |}) ->
     ~ In c log_features) /\
  ~ In label_col (feature_cols Examples.concrete3).
Proof.
  apply (columns_used_once Examples.concrete3
           {| columns := feature_cols Examples.concrete3; values := [] |}).
  - reflexivity.
  - repeat constructor; simpl; intuition discriminate.
  - simpl. auto.
  - simpl. auto.
Defined.

End Views.

Lemma series_absent (df : DataFrame) (c : string) :
  ~ In c (columns df) -> series df c = None.
Proof. intros H. unfold series. now rewrite get_locs_absent. Qed.

(** The features view and the target view of a split.  On a table
    with unique column labels, the labels of the loaded table, one of them
    the target: both lookups succeed; the features view has the feature
    columns, the target view the target alone; both have the rows of the
    table; every column of a view holds what that column held in the table;
    and the target is no column of the features view. *)
Theorem X_y_views (concrete_df set : DataFrame) :
  columns set = columns concrete_df ->
  NoDup (columns set) ->
  In label_col (columns set) ->
  exists X y,
    X_y concrete_df set = Found (X, y) /\
    columns X = feature_cols concrete_df /\
    columns y = [label_col] /\
    length (values X) = length (values set) /\
    length (values y) = length (values set) /\
    (forall c, In c (feature_cols concrete_df) -> series X c = series set c) /\
    series y label_col = series set label_col /\
    series X label_col = None.
Proof.
  intros Hcols Hnd Hlabel.
  assert (Hfeat : feature_cols concrete_df = feature_cols set)
    by (unfold feature_cols; now rewrite Hcols).
  assert (HinclX : incl (feature_cols set) (columns set)).
  { intros c Hc. now apply feature_cols_spec in Hc as [Hc _]. }
  assert (Hincly : incl [label_col] (columns set)).
  { intros c [<-|[]]. assumption. }
  assert (HndX : NoDup (feature_cols set)) by (now apply NoDup_filter).
  assert (Hndy : NoDup [label_col]) by (repeat constructor; intros []).
  unfold X_y. rewrite Hfeat.
  rewrite (getitem_found set _ Hnd HinclX), (getitem_found set _ Hnd Hincly).
  do 2 eexists. split; [reflexivity|].
  split; [now apply iloc_columns_labels|].
  split; [now apply iloc_columns_labels|].
  split; [apply iloc_columns_rows|].
  split; [apply iloc_columns_rows|].
  split; [|split].
  - intros c Hc. now apply iloc_columns_series.
  - apply iloc_columns_series; auto. now left.
  - apply series_absent. rewrite (iloc_columns_labels set _ Hnd HinclX).
    intros H. apply feature_cols_spec in H as [_ H]. now apply H.
Qed.

Lemma X_y_views_witness :
  exists X y,
    X_y Examples.concrete3 Examples.concrete3 = Found (X, y) /\
    columns X = feature_cols Examples.concrete3 /\
    columns y = [label_col] /\
    length (values X) = length (values Examples.concrete3) /\
    length (values y) = length (values Examples.concrete3) /\
    (forall c, In c (feature_cols Examples.concrete3) ->
               series X c = series Examples.concrete3 c) /\
    series y label_col = series Examples.concrete3 label_col /\
    series X label_col = None.
Proof.
  apply (X_y_views Examples.concrete3 Examples.concrete3).
  - reflexivity.
  - repeat constructor; simpl; intuition discriminate.
  - simpl. auto.
Defined.

(** A table without the target column.  The feature columns are
    then all its columns and the features view is found, but the target
    view is a [KeyError] that names "csMPa". *)
Theorem X_y_missing_label (concrete_df set : DataFrame) :
  columns set = columns concrete_df ->
  ~ In label_col (columns set) ->
  feature_cols concrete_df = columns concrete_df /\
  X_y concrete_df set = KeyError [label_col].
Proof.
  intros Hcols Hnotin.
  assert (Hall : feature_cols concrete_df = columns concrete_df).
  { unfold feature_cols. apply filter_all. intros c Hc.
    apply negb_true_iff, String.eqb_neq. intros ->.
    apply Hnotin. now rewrite Hcols. }
  split; [assumption|].
  unfold X_y, getitem. rewrite Hall, <- Hcols.
  rewrite (filter_not_in_incl _ _ (incl_refl _)). simpl.
  destruct (not_in label_col (columns set)) eqn:Hni; [reflexivity|].
  exfalso. apply not_true_iff_false in Hni. apply Hni.
  now apply not_in_spec.
Qed.

Lemma X_y_missing_label_witness :
  feature_cols Examples.no_age = columns Examples.no_age /\
  X_y Examples.no_age Examples.no_age = KeyError [label_col].
Proof.
  apply (X_y_missing_label Examples.no_age Examples.no_age).
  - reflexivity.
  - simpl. intuition discriminate.
Defined.

(* ================================================================== *)
(** * Further properties of the splitter and of the search *)

Lemma take_length {A : Type} (l : list A) (idx : list nat) (r : list A) :
  take l idx = Some r -> length r = length idx.
Proof.
  revert r. induction idx as [|i idx IH]; intros r; simpl.
  - now intros [= <-].
  - destruct (nth_error l i); [|discriminate].
    destruct (take l idx) as [r'|]; [|discriminate].
    intros [= <-]. simpl. f_equal. now apply IH.
Qed.

Lemma take_some {A : Type} (l : list A) (idx : list nat) :
  Forall (fun i => (i < length l)%nat) idx ->
  exists r, take l idx = Some r /\ length r = length idx.
Proof.
  induction 1 as [|i idx Hi _ (r & Hr & Hlen)]; simpl.
  - now exists [].
  - apply nth_error_Some in Hi.
    destruct (nth_error l i) as [a|]; [|congruence].
    rewrite Hr. exists (a :: r). simpl. auto.
Qed.

Lemma In_firstn {A : Type} (n : nat) (l : list A) (x : A) :
  In x (firstn n l) -> In x l.
Proof.
  intros H. rewrite <- (firstn_skipn n l). apply in_or_app. now left.
Qed.

Lemma In_skipn {A : Type} (n : nat) (l : list A) (x : A) :
  In x (skipn n l) -> In x l.
Proof.
  intros H. rewrite <- (firstn_skipn n l). apply in_or_app. now right.
Qed.

Lemma ceil_fifth_bounds (n : nat) :
  (n <= 5 * ceil_fraction 1 5 n < n + 5)%nat.
Proof.
  unfold ceil_fraction. rewrite Nat.mul_1_r. simpl (5 - 1)%nat.
  pose proof (Nat.div_mod_eq (n + 4) 5) as Hdm.
  pose proof (Nat.mod_upper_bound (n + 4) 5 ltac:(lia)) as Hm.
  lia.
Qed.

Section SplitterMore.

Context {RS : RandomState} (Spec : RandomStateSpec RS).

(** The sizes of the split.  On a table of [n >= 2] rows the test
    table has a fifth of the rows, rounded up, the training table has all
    the others, and neither is empty. *)
Theorem split_concrete_sizes (global : rng) (df : DataFrame) :
  (2 <= length (values df))%nat ->
  exists train test,
    split_concrete global df = Ok (train, test) /\
    length (values test) = ceil_fraction 1 5 (length (values df)) /\
    (length (values train) + length (values test)
     = length (values df))%nat /\
    (1 <= length (values train))%nat /\
    (1 <= length (values test))%nat /\
    (length (values df) <= 5 * length (values test)
     < length (values df) + 5)%nat.
Proof.
  intros Hn. set (n := length (values df)) in *.
  pose proof (ceil_fifth_lt n Hn) as Hlt.
  pose proof (ceil_fifth_bounds n) as Hb.
  set (c := ceil_fraction 1 5 n) in *.
  set (p := fst (permutation (seeded 42) n)).
  assert (Hp : Permutation p (seq 0 n)) by apply (permutation_spec _ n).
  assert (Hlen : length p = n) by apply (permutation_length Spec).
  assert (Hrange : forall idx, incl idx p ->
            exists r, take (values df) idx = Some r /\ length r = length idx).
  { intros idx Hincl. apply take_some, Forall_forall. intros i Hi.
    apply Hincl, (Permutation_in _ Hp), in_seq in Hi. fold n. lia. }
  destruct (Hrange (firstn (n - c) (skipn c p))) as (rtrain & Htrain & Hltr).
  { intros i Hi. apply In_firstn in Hi. eapply In_skipn; eauto. }
  destruct (Hrange (firstn c p)) as (rtest & Htest & Hlte).
  { intros i Hi. eapply In_firstn; eauto. }
  rewrite length_firstn, length_skipn, Hlen in Hltr.
  rewrite length_firstn, Hlen in Hlte.
  exists {| columns := columns df; values := rtrain |},
         {| columns := columns df; values := rtest |}.
  split.
  - unfold split_concrete, train_test_split. fold n.
    rewrite (validate_fifth n Hn).
    cbn [bind fst snd check_random_state]. unfold shuffle_split.
    fold c. fold p. cbn [fst snd]. unfold iloc.
    rewrite Htrain. cbn [bind]. now rewrite Htest.
  - simpl. lia.
Qed.

End SplitterMore.

Lemma split_concrete_sizes_witness :
  exists train test,
    @split_concrete Examples.counter 0%nat Examples.five_rows
      = Ok (train, test) /\
    length (values test)
      = ceil_fraction 1 5 (length (values Examples.five_rows)) /\
    (length (values train) + length (values test)
     = length (values Examples.five_rows))%nat /\
    (1 <= length (values train))%nat /\
    (1 <= length (values test))%nat /\
    (length (values Examples.five_rows) <= 5 * length (values test)
     < length (values Examples.five_rows) + 5)%nat.
Proof.
  apply (@split_concrete_sizes Examples.counter counter_spec
           0%nat Examples.five_rows).
  vm_compute. lia.
Defined.

Lemma fold_sizes_sum_upto (q r k : nat) :
  list_sum (map (fun i => (q + (if i <? r then 1 else 0))%nat) (seq 0 k))
  = (k * q + Nat.min r k)%nat.
Proof.
  induction k as [|k IH]; [simpl; lia|].
  rewrite seq_S, map_app, list_sum_app, IH. simpl.
  destruct (Nat.ltb_spec k r); lia.
Qed.

Lemma fold_sizes_sum (n n_splits : nat) :
  (1 <= n_splits)%nat -> list_sum (fold_sizes n n_splits) = n.
Proof.
  intros Hk. unfold fold_sizes. rewrite fold_sizes_sum_upto.
  pose proof (Nat.div_mod_eq n n_splits) as Hdm.
  pose proof (Nat.mod_upper_bound n n_splits ltac:(lia)) as Hm.
  rewrite Nat.min_l by lia. lia.
Qed.

Lemma fold_sizes_each (n n_splits size : nat) :
  In size (fold_sizes n n_splits) ->
  size = (n / n_splits)%nat \/ size = S (n / n_splits).
Proof.
  unfold fold_sizes. intros H. apply in_map_iff in H as (i & <- & _).
  destruct (i <? n mod n_splits)%nat; lia.
Qed.

Lemma seq_split3 (n cur size : nat) :
  (cur + size <= n)%nat ->
  Permutation
    ((seq 0 cur ++ seq (cur + size) (n - (cur + size))) ++ seq cur size)
    (seq 0 n).
Proof.
  intros Hle.
  replace n with (cur + (size + (n - (cur + size))))%nat at 2 by lia.
  rewrite seq_app, seq_app. simpl.
  rewrite <- app_assoc. apply Permutation_app_head, Permutation_app_comm.
Qed.

Lemma folds_from_spec (n : nat) (sizes : list nat) (cur : nat) :
  (cur + list_sum sizes <= n)%nat ->
  length (folds_from n cur sizes) = length sizes /\
  concat (map snd (folds_from n cur sizes)) = seq cur (list_sum sizes) /\
  map (fun f => length (snd f)) (folds_from n cur sizes) = sizes /\
  Forall (fun f => Permutation (fst f ++ snd f) (seq 0 n))
         (folds_from n cur sizes).
Proof.
  revert cur. induction sizes as [|size sizes IH]; intros cur Hle; simpl.
  - repeat split; constructor.
  - simpl in Hle.
    destruct (IH (cur + size)%nat ltac:(lia)) as (Hlen & Hcat & Hsz & Hall).
    repeat split.
    + now rewrite Hlen.
    + rewrite Hcat. now rewrite seq_app.
    + rewrite Hsz. now rewrite length_seq.
    + constructor; [|assumption]. simpl. apply seq_split3. lia.
Qed.

(** The folds of the cross-validation.  [KFold] raises [ValueError] for
    fewer than two folds and for fewer rows than folds.  With at least two
    folds and at least as many rows as folds it gives that many folds; the
    test parts, one after the other, are the positions [0 .. n-1] in order,
    so every row is tested exactly once; in every fold the training and the
    test part together are a permutation of all positions; and every test
    part has [n / n_splits] rows or one more, hence at least one. *)
Theorem KFold_partition (n_splits n : nat) :
  ((n_splits <= 1)%nat \/ (n < n_splits)%nat ->
   KFold n_splits n = Raise ValueError) /\
  ((2 <= n_splits)%nat -> (n_splits <= n)%nat ->
   exists folds,
     KFold n_splits n = Ok folds /\
     length folds = n_splits /\
     concat (map snd folds) = seq 0 n /\
     Forall (fun f =>
               Permutation (fst f ++ snd f) (seq 0 n) /\
               (length (snd f) = (n / n_splits)%nat \/
                length (snd f) = S (n / n_splits)) /\
               snd f <> [])
            folds).
Proof.
  split; [apply KFold_raises|].
  intros Hk Hn.
  pose proof (fold_sizes_sum n n_splits ltac:(lia)) as Hsum.
  destruct (folds_from_spec n (fold_sizes n n_splits) 0 ltac:(lia))
    as (Hlen & Hcat & Hsz & Hall).
  exists (folds_from n 0 (fold_sizes n n_splits)).
  split; [|split; [|split]].
  - now apply KFold_enough.
  - rewrite Hlen. unfold fold_sizes. now rewrite length_map, length_seq.
  - now rewrite Hcat, Hsum.
  - apply Forall_forall. intros f Hf.
    assert (Hsize : In (length (snd f)) (fold_sizes n n_splits)).
    { rewrite <- Hsz. apply in_map_iff. now exists f. }
    apply fold_sizes_each in Hsize.
    assert (Hq : (1 <= n / n_splits)%nat).
    { apply Nat.div_le_lower_bound; lia. }
    rewrite Forall_forall in Hall. split; [now apply Hall|].
    split; [assumption|].
    intros Hnil. rewrite Hnil in Hsize. simpl in Hsize. lia.
Qed.

Lemma KFold_partition_witness :
  exists folds,
    KFold 5 7 = Ok folds /\
    length folds = 5%nat /\
    concat (map snd folds) = seq 0 7 /\
    Forall (fun f =>
              Permutation (fst f ++ snd f) (seq 0 7) /\
              (length (snd f) = (7 / 5)%nat \/
               length (snd f) = S (7 / 5)) /\
              snd f <> [])
           folds.
Proof.
  apply (proj2 (KFold_partition 5 7)); lia.
Defined.

(* ---------------------------------------------------------------- *)
(** ** The ranking of the candidates *)

Lemma less_irrefl (a : float64) : less a a = false.
Proof.
  destruct a; simpl; try reflexivity.
  destruct (Rlt_dec r r); [lra|reflexivity].
Qed.

(** Once a greater element is found, nothing seen before is greater than
    it. *)
Lemma less_passed (b k x : float64) :
  less b k = true -> less b x = false -> less k x = false.
Proof.
  destruct b, k, x; simpl; try reflexivity; try discriminate;
    repeat match goal with
           | |- context [Rlt_dec ?a ?b] => destruct (Rlt_dec a b)
           end;
    try reflexivity; try discriminate; lra.
Qed.

Lemma argmax_from_spec (a pre : list float64) (best_i : nat)
  (best : float64) :
  nth_error (pre ++ a) best_i = Some best ->
  (forall k, In k pre -> less best k = false) ->
  exists kr,
    nth_error (pre ++ a) (argmax_from (length pre) best_i best a) = Some kr /\
    forall k, In k (pre ++ a) -> less kr k = false.
Proof.
  revert pre best_i best.
  induction a as [|v a IH]; intros pre best_i best Hbest Hpre; simpl.
  - exists best. split; [assumption|].
    intros k Hk. rewrite app_nil_r in Hk. now apply Hpre.
  - assert (Happ : (pre ++ v :: a = (pre ++ [v]) ++ a)%list)
      by (now rewrite <- app_assoc).
    assert (Hlen : length (pre ++ [v]) = S (length pre))
      by (rewrite length_app; simpl; lia).
    destruct (less best v) eqn:Hlt.
    + destruct (IH (pre ++ [v])%list (length pre) v) as (kr & Hkr & Hmax).
      * rewrite <- Happ. rewrite nth_error_app2 by lia.
        now rewrite Nat.sub_diag.
      * intros k Hk. apply in_app_or in Hk as [Hk|[<-|[]]].
        -- apply less_passed with best; auto.
        -- apply less_irrefl.
      * exists kr. rewrite Happ, <- Hlen. now split.
    + destruct (IH (pre ++ [v])%list best_i best) as (kr & Hkr & Hmax).
      * now rewrite <- Happ.
      * intros k Hk. apply in_app_or in Hk as [Hk|[<-|[]]]; auto.
      * exists kr. rewrite Happ, <- Hlen. now split.
Qed.

(** [np.argmax] is the position of an element no other element exceeds. *)
Lemma argmax_spec (a : list float64) :
  a <> [] ->
  exists kr,
    nth_error a (argmax a) = Some kr /\
    forall k, In k a -> less kr k = false.
Proof.
  destruct a as [|v a]; [congruence|]. intros _.
  apply (argmax_from_spec a [v] 0 v); [reflexivity|].
  intros k [<-|[]]. apply less_irrefl.
Qed.

(** [np.nanmin] is at most every number of the array. *)
Lemma nanmin_le (a : list float64) (v : R) :
  In (Finite v) a ->
  nanmin a = NegInf \/ exists x, nanmin a = Finite x /\ x <= v.
Proof.
  induction a as [|w a IH]; [contradiction|].
  intros [->|Hin].
  - change (nanmin (Finite v :: a))
      with (if isnan (nanmin a) then Finite v
            else if less (Finite v) (nanmin a) then Finite v else nanmin a).
    destruct (nanmin a) as [y| | |]; simpl.
    + destruct (Rlt_dec v y).
      * right. exists v. split; [reflexivity|lra].
      * right. exists y. split; [reflexivity|lra].
    + right. exists v. split; [reflexivity|lra].
    + now left.
    + right. exists v. split; [reflexivity|lra].
  - specialize (IH Hin).
    change (nanmin (w :: a))
      with (if isnan w then nanmin a
            else if isnan (nanmin a) then w
            else if less w (nanmin a) then w else nanmin a).
    destruct IH as [->|(x & -> & Hx)].
    + destruct w; simpl; auto.
    + destruct w as [y| | |]; simpl.
      * destruct (Rlt_dec y x).
        -- right. exists y. split; [reflexivity|lra].
        -- right. exists x. split; [reflexivity|lra].
      * right. now exists x.
      * now left.
      * right. now exists x.
Qed.

(** The candidate the search keeps: its mean score is a number as soon as
    one mean score is, and then no mean score that is a number exceeds
    it. *)
Lemma best_index_spec (means : list float64) :
  means <> [] ->
  exists score,
    nth_error means (best_index_ means) = Some score /\
    forall v, In (Finite v) means ->
      score <> NaN /\ forall s, score = Finite s -> v <= s.
Proof.
  intros Hne. unfold best_index_.
  destruct (forallb isnan means) eqn:Hall.
  - destruct means as [|m means]; [congruence|].
    exists m. split; [reflexivity|].
    intros v Hv. rewrite forallb_forall in Hall.
    specialize (Hall _ Hv). discriminate.
  - set (mm := add64 (nanmin means) (Finite (-1))).
    destruct (argmax_spec (map (nan_to_num mm) means)) as (kr & Hkr & Hmax).
    { destruct means; [congruence|discriminate]. }
    rewrite nth_error_map in Hkr.
    destruct (nth_error means (argmax (map (nan_to_num mm) means)))
      as [score|] eqn:Hscore; [|discriminate].
    injection Hkr as <-.
    exists score. split; [reflexivity|].
    intros v Hv.
    assert (Hle : less (nan_to_num mm score) (Finite v) = false).
    { apply Hmax. change (Finite v) with (nan_to_num mm (Finite v)).
      now apply in_map. }
    destruct score as [s| | |]; simpl in Hle.
    + split; [discriminate|]. intros s' [= <-].
      destruct (Rlt_dec s v); [discriminate|lra].
    + split; [discriminate|discriminate].
    + split; [discriminate|discriminate].
    + exfalso. unfold mm in Hle.
      destruct (nanmin_le means v Hv) as [Hm|(x & Hm & Hx)];
        rewrite Hm in Hle; simpl in Hle; [discriminate|].
      destruct (Rlt_dec (x + -1) v); [discriminate|lra].
Qed.

(* ---------------------------------------------------------------- *)
(** ** The search *)

Section SearchMore.

Context {RS : RandomState} {estimator : Type} (Spec : RandomStateSpec RS).
Variable fit_and_score :
  rng -> params -> dataset -> dataset -> option float64 * rng.
Variable refit : rng -> params -> dataset -> result estimator.

(** The outcomes of the fits of one candidate do not depend on the state of
    the process-wide generator when no single one does. *)
Lemma cross_validate_fst (g g' : rng) (p : params) (data : dataset)
  (folds : list (list nat * list nat)) :
  (forall g g' p train test,
     fst (fit_and_score g p train test)
     = fst (fit_and_score g' p train test)) ->
  fst (cross_validate fit_and_score g p data folds)
  = fst (cross_validate fit_and_score g' p data folds).
Proof.
  intros Hdet. revert g g'.
  induction folds as [|f folds IH]; intros g g'; simpl; [reflexivity|].
  pose proof (Hdet g g' p (select data (fst f)) (select data (snd f))) as Ho.
  destruct (fit_and_score g p _ _) as [o g1].
  destruct (fit_and_score g' p _ _) as [o' g1'].
  specialize (IH g1 g1').
  destruct (cross_validate fit_and_score g1 p data folds) as [os g2].
  destruct (cross_validate fit_and_score g1' p data folds) as [os' g2'].
  simpl in *. congruence.
Qed.

Lemma evaluate_candidates_fst (g g0 : rng) (candidates : list params)
  (data : dataset) (folds : list (list nat * list nat)) :
  (forall g g' p train test,
     fst (fit_and_score g p train test)
     = fst (fit_and_score g' p train test)) ->
  fst (evaluate_candidates fit_and_score g candidates data folds)
  = map (fun p => fst (cross_validate fit_and_score g0 p data folds))
        candidates.
Proof.
  intros Hdet. revert g.
  induction candidates as [|p candidates IH]; intros g; simpl;
    [reflexivity|].
  pose proof (cross_validate_fst g g0 p data folds Hdet) as Ho.
  destruct (cross_validate fit_and_score g p data folds) as [o g1].
  specialize (IH g1).
  destruct (evaluate_candidates fit_and_score g1 candidates data folds)
    as [os g2].
  simpl in *. congruence.
Qed.

(** The notebook's search, step by step, once the candidates are drawn and
    the folds made. *)
Lemma svr_rnd_search_unfold (g g0 : rng) (data : dataset)
  (candidates : list params) (folds : list (list nat * list nat)) :
  (forall g g' p train test,
     fst (fit_and_score g p train test)
     = fst (fit_and_score g' p train test)) ->
  sample_n [param_distributions] 50 (seeded 42) = Ok candidates ->
  KFold 5 (length data) = Ok folds ->
  svr_rnd_search fit_and_score refit g data
  = let out :=
      map (fun p => fst (cross_validate fit_and_score g0 p data folds))
          candidates in
    if forallb (forallb fit_failed) out then Raise ValueError
    else
      let means := map mean_test_score out in
      match nth_error candidates (best_index_ means),
            nth_error means (best_index_ means) with
      | Some best_params_, Some best_score_ =>
          best_estimator_ <-
            refit (snd (evaluate_candidates fit_and_score g candidates
                          data folds))
                  best_params_ data ;;
          Ok (best_params_, best_score_, best_estimator_)
      | _, _ => Raise IndexError
      end.
Proof.
  intros Hdet Hcs HK. unfold svr_rnd_search, RandomizedSearchCV_fit.
  cbn [Nat.leb bind]. rewrite ParameterSampler_seeded, Hcs. cbn [bind].
  rewrite HK. cbn [bind].
  pose proof (evaluate_candidates_fst g g0 candidates data folds Hdet) as Ho.
  destruct (evaluate_candidates fit_and_score g candidates data folds)
    as [out g'].
  cbn [fst snd] in *. now subst out.
Qed.

Lemma KFold_folds (data : dataset) (folds : list (list nat * list nat)) :
  KFold 5 (length data) = Ok folds -> length folds = 5%nat.
Proof.
  unfold KFold. cbn [Nat.leb].
  destruct (Nat.ltb_spec (length data) 5); [discriminate|].
  destruct (folds_from_spec (length data) (fold_sizes (length data) 5) 0)
    as (Hlen & _).
  { rewrite fold_sizes_sum; lia. }
  intros Heq.
  assert (Hf : folds_from (length data) 0 (fold_sizes (length data) 5)
               = folds) by congruence.
  rewrite <- Hf, Hlen. unfold fold_sizes.
  now rewrite length_map, length_seq.
Qed.

(** C5.  Two runs of the notebook's search on the same training data, started
    in any two states of the process-wide generator, have the same outcome:
    the same error, or the same best configuration, best score and refitted
    estimator.  The candidates come from a generator of their own, seeded
    with 42; the folds are consecutive blocks; the fits draw from the
    process-wide generator, and what is assumed of the library is that the
    outcome of a fit does not depend on what it draws.  When a run returns,
    the best configuration is one of the fifty candidates drawn with seed
    42, from the space above; its score is its mean score over the five
    folds, a number as soon as one candidate's mean score is, and then no
    candidate's mean score exceeds it.  With at least five training rows, no
    failing fit and a refit that succeeds, the runs do return. *)
Theorem svr_rnd_search_reproducible (global1 global2 : rng)
  (data : dataset) :
  (forall g g' p train test,
     fst (fit_and_score g p train test)
     = fst (fit_and_score g' p train test)) ->
  (forall g g' p, refit g p data = refit g' p data) ->
  svr_rnd_search fit_and_score refit global1 data
    = svr_rnd_search fit_and_score refit global2 data /\
  (forall best score est,
     svr_rnd_search fit_and_score refit global1 data
       = Ok (best, score, est) ->
     exists candidates folds,
       ParameterSampler param_distributions 50 (Some 42%nat) global1
         = Ok candidates /\
       KFold 5 (length data) = Ok folds /\
       In best candidates /\
       in_space best /\
       forall g,
         refit g best data = Ok est /\
         score
         = mean_test_score
             (fst (cross_validate fit_and_score g best data folds)) /\
         forall p v, In p candidates ->
           mean_test_score
             (fst (cross_validate fit_and_score g p data folds)) = Finite v ->
           score <> NaN /\ forall s, score = Finite s -> v <= s) /\
  ((5 <= length data)%nat ->
   (forall g p train test, fst (fit_and_score g p train test) <> None) ->
   (forall g p, exists est, refit g p data = Ok est) ->
   exists best score est,
     svr_rnd_search fit_and_score refit global1 data
       = Ok (best, score, est)).
Proof.
  intros Hdet Hrefit.
  destruct (sample_n_in_space Spec 50 (seeded 42)) as (cs & Hcs & Hlen & Hall).
  destruct (KFold 5 (length data)) as [folds|e] eqn:HK.
  2: { assert (Hraise : forall g,
                 svr_rnd_search fit_and_score refit g data = Raise e).
       { intros g. unfold svr_rnd_search, RandomizedSearchCV_fit.
         cbn [Nat.leb bind]. rewrite ParameterSampler_seeded, Hcs.
         cbn [bind]. now rewrite HK. }
       rewrite !Hraise. split; [reflexivity|]. split; [discriminate|].
       intros Hn. rewrite KFold_enough in HK by lia. discriminate. }
  rewrite (svr_rnd_search_unfold global1 global1 data cs folds Hdet Hcs HK).
  rewrite (svr_rnd_search_unfold global2 global1 data cs folds Hdet Hcs HK).
  cbv zeta.
  set (out := map (fun p => fst (cross_validate fit_and_score global1 p
                                   data folds)) cs).
  set (means := map mean_test_score out).
  set (ga := snd (evaluate_candidates fit_and_score global1 cs data folds)).
  set (gb := snd (evaluate_candidates fit_and_score global2 cs data folds)).
  assert (Hmeans : forall g,
            means = map (fun p => mean_test_score
                           (fst (cross_validate fit_and_score g p
                                   data folds))) cs).
  { intros g. unfold means, out. rewrite map_map. apply map_ext.
    intros p. now rewrite (cross_validate_fst global1 g p data folds Hdet). }
  destruct (forallb (forallb fit_failed) out) eqn:Hfail.
  { split; [reflexivity|]. split; [discriminate|].
    intros _ Hnofail _. exfalso.
    apply KFold_folds in HK.
    destruct cs as [|c cs]; [discriminate|].
    destruct folds as [|f folds]; [discriminate|].
    unfold out in Hfail. cbn [map forallb] in Hfail.
    apply andb_prop in Hfail as [Hfail _].
    cbn [cross_validate] in Hfail.
    pose proof (Hnofail global1 c (select data (fst f))
                  (select data (snd f))) as Hc.
    destruct (fit_and_score global1 c _ _) as [o g1].
    destruct (cross_validate fit_and_score g1 c data folds) as [os g2].
    cbn [fst forallb] in *. apply andb_prop in Hfail as [Hfail _].
    destruct o; [discriminate|congruence]. }
  destruct (best_index_spec means) as (score & Hscore & Hmax).
  { unfold means, out. destruct cs; discriminate. }
  rewrite Hscore.
  set (i := best_index_ means) in *. clearbody i.
  assert (Hbest : exists best,
            nth_error cs i = Some best /\
            forall g, score = mean_test_score
                        (fst (cross_validate fit_and_score g best
                                data folds))).
  { destruct (nth_error cs i) as [best|] eqn:Hb.
    - exists best. split; [reflexivity|]. intros g.
      rewrite (Hmeans g), nth_error_map, Hb in Hscore.
      now injection Hscore as <-.
    - rewrite (Hmeans global1), nth_error_map, Hb in Hscore.
      discriminate. }
  destruct Hbest as (best & Hb & Hbscore). rewrite Hb.
  rewrite (Hrefit gb ga best).
  split; [reflexivity|]. split.
  - destruct (refit ga best data) as [est|e] eqn:Hest; cbn [bind];
      [|discriminate].
    intros best' score' est' [= <- <- <-].
    exists cs, folds.
    split; [now rewrite ParameterSampler_seeded|].
    split; [reflexivity|].
    split; [eapply nth_error_In; eauto|].
    split.
    { rewrite Forall_forall in Hall. apply Hall.
      eapply nth_error_In; eauto. }
    intros g. split; [now rewrite (Hrefit g ga best)|].
    split; [apply Hbscore|].
    intros p v Hp Hv. apply Hmax.
    rewrite (Hmeans g). rewrite <- Hv.
    apply (in_map (fun p => mean_test_score
                     (fst (cross_validate fit_and_score g p data folds)))).
    exact Hp.
  - intros _ _ Hok. destruct (Hok ga best) as (est & ->). cbn [bind].
    now exists best, score, est.
Qed.

(** Too few rows.  With fewer than five training rows the five folds
    cannot be formed and the search raises [ValueError]. *)
Theorem svr_rnd_search_too_few (global : rng) (data : dataset) :
  (length data < 5)%nat ->
  svr_rnd_search fit_and_score refit global data = Raise ValueError.
Proof.
  intros Hn. unfold svr_rnd_search, RandomizedSearchCV_fit.
  cbn [Nat.leb bind]. rewrite ParameterSampler_seeded.
  destruct (sample_n_in_space Spec 50 (seeded 42)) as (cs & -> & _).
  cbn [bind]. rewrite KFold_raises by (right; lia). reflexivity.
Qed.

End SearchMore.

Lemma svr_rnd_search_reproducible_witness :
  @svr_rnd_search Examples.counter params Examples.prefer_small_C
     Examples.keep_params 0%nat Examples.training
  = @svr_rnd_search Examples.counter params Examples.prefer_small_C
      Examples.keep_params 7%nat Examples.training /\
  exists best score est,
    @svr_rnd_search Examples.counter params Examples.prefer_small_C
       Examples.keep_params 0%nat Examples.training
    = Ok (best, score, est).
Proof.
  destruct (@svr_rnd_search_reproducible Examples.counter params
              counter_spec Examples.prefer_small_C Examples.keep_params
              0%nat 7%nat Examples.training)
    as (Hsame & _ & Hreturns).
  - reflexivity.
  - reflexivity.
  - split; [exact Hsame|]. apply Hreturns.
    + vm_compute. lia.
    + discriminate.
    + intros g p. now exists p.
Defined.

Lemma svr_rnd_search_too_few_witness :
  @svr_rnd_search Examples.counter params Examples.prefer_small_C
     Examples.keep_params 0%nat (firstn 4 Examples.training)
  = Raise ValueError.
Proof.
  apply (@svr_rnd_search_too_few Examples.counter params counter_spec
           Examples.prefer_small_C Examples.keep_params
           0%nat (firstn 4 Examples.training)).
  vm_compute. lia.
Defined.

(* ================================================================== *)
(** * Further properties of the evaluator *)

Lemma squares_swap (a b : list R) :
  map (fun ap => sq (fst ap - snd ap)) (combine a b)
  = map (fun pa => sq (fst pa - snd pa)) (combine b a).
Proof.
  revert b. induction a as [|x a IH]; intros [|y b]; simpl; try reflexivity.
  rewrite IH. f_equal. unfold sq. ring.
Qed.

Lemma rmse_value (y_pred y_test : list R) :
  length y_pred = length y_test -> y_test <> [] ->
  rmse y_pred y_test
  = Ok (R_sqrt.sqrt
          (Rmean (map (fun pa => sq (fst pa - snd pa))
                      (combine y_pred y_test)))).
Proof.
  intros Hlen Hne. unfold rmse, mean_squared_error.
  rewrite Hlen, Nat.eqb_refl. cbn [negb].
  destruct (Nat.ltb_spec (length y_test) 1) as [H|_].
  { destruct y_test; [congruence|simpl in H; lia]. }
  now rewrite squares_swap.
Qed.

Section EvaluatorMore.

Context {T : StudentT}.

Lemma combine_repeat (p : R) (y_test : list R) :
  map (fun pa => sq (fst pa - snd pa))
      (combine (repeat p (length y_test)) y_test)
  = map (fun a => sq (p - a)) y_test.
Proof. induction y_test as [|a y IH]; simpl; [reflexivity|now rewrite IH]. Qed.

(** Inputs of different lengths.  With predictions and actual values of
    different lengths [rmse] raises [ValueError].  [confidence_interval]
    raises [ValueError] too, unless there is exactly one prediction: a single
    prediction is broadcast, and the interval is the one of that prediction
    repeated for every row.  On an empty test set [rmse] raises
    [ValueError], while [confidence_interval] returns a pair of [nan]. *)
Theorem evaluator_input_errors (y_pred y_test : list R) :
  (length y_pred <> length y_test ->
   rmse y_pred y_test = Raise ValueError /\
   (length y_pred <> 1%nat ->
    confidence_interval y_pred y_test = Raise ValueError) /\
   (forall p, y_pred = [p] ->
    confidence_interval y_pred y_test
    = confidence_interval (repeat p (length y_test)) y_test)) /\
  rmse [] [] = Raise ValueError /\
  confidence_interval [] [] = Ok (NaN, NaN).
Proof.
  split; [|split; reflexivity].
  intros Hne. split; [|split].
  - unfold rmse, mean_squared_error.
    destruct (Nat.eqb_spec (length y_test) (length y_pred)); [congruence|].
    reflexivity.
  - intros H1. unfold confidence_interval, squared_errors.
    destruct (Nat.eqb_spec (length y_pred) (length y_test)); [congruence|].
    destruct y_pred as [|p [|q y_pred]]; try reflexivity.
    simpl in H1. congruence.
  - intros p ->. unfold confidence_interval, squared_errors.
    destruct (Nat.eqb_spec (length [p]) (length y_test));
      [simpl in *; congruence|].
    rewrite repeat_length, Nat.eqb_refl. now rewrite combine_repeat.
Qed.

Context (Spec : StudentTSpec T).

(** The square roots of the bounds of the interval around a mean [m >= 0]
    lie on either side of the square root of [m], where they are numbers. *)
Lemma sqrt_interval_around (df : nat) (m : R) (scale : float64) :
  0 <= m ->
  (scale = NaN \/ exists s, scale = Finite s) ->
  let iv := interval confidence df (Finite m) scale in
  let lo := Np.sqrt (fst iv) in
  let hi := Np.sqrt (snd iv) in
  (lo = NaN \/ le64 lo (Finite (R_sqrt.sqrt m))) /\
  (hi = NaN \/ le64 (Finite (R_sqrt.sqrt m)) hi).
Proof.
  intros Hm [->|[s ->]]; cbv zeta; unfold interval; cbn [fst snd].
  - rewrite !ppf_nan_scale. auto.
  - destruct df as [|df].
    { rewrite !ppf_no_df. auto. }
    destruct (Rle_lt_dec s 0) as [Hs|Hs].
    { rewrite !(ppf_no_scale _ _ _ s Hs). auto. }
    assert (Hdf : (1 <= S df)%nat) by lia.
    pose proof (t_ppf_lower Spec (S df) Hdf) as Hlo.
    pose proof (t_ppf_upper Spec (S df) Hdf) as Hhi.
    rewrite !ppf_inside by (auto; unfold confidence; lra).
    set (tlo := t_ppf ((1 - confidence) / 2) (S df)) in *.
    set (thi := t_ppf ((1 + confidence) / 2) (S df)) in *.
    assert (Hhi2 : m <= thi * s + m) by nra.
    assert (Hlo2 : tlo * s + m <= m) by nra.
    rewrite (sqrt_finite_nonneg (thi * s + m)) by lra.
    split.
    + destruct (Rlt_dec (tlo * s + m) 0) as [Hneg|Hpos].
      * left. now apply sqrt_finite_negative.
      * right. apply Rnot_lt_le in Hpos.
        rewrite (sqrt_finite_nonneg _ Hpos). simpl.
        now apply sqrt_le_1_alt.
    + right. simpl. now apply sqrt_le_1_alt.
Qed.

(** The interval is around the reported error.  On a non-empty
    test set with one prediction per row, every bound of the confidence
    interval that is a number lies on its side of [rmse]: the lower bound
    is at most [rmse], the upper bound at least [rmse]. *)
Theorem confidence_interval_around_rmse (y_pred y_test : list R) :
  length y_pred = length y_test ->
  y_test <> [] ->
  exists r lo hi,
    rmse y_pred y_test = Ok r /\
    confidence_interval y_pred y_test = Ok (lo, hi) /\
    (lo = NaN \/ le64 lo (Finite r)) /\
    (hi = NaN \/ le64 (Finite r) hi).
Proof.
  intros Hlen Hne. rewrite (rmse_value _ _ Hlen Hne).
  unfold confidence_interval.
  rewrite (squared_errors_same_length _ _ Hlen). cbn [bind].
  set (se := map (fun pa => sq (fst pa - snd pa)) (combine y_pred y_test)).
  assert (Hse : se <> []).
  { unfold se. destruct y_pred, y_test; simpl in *; congruence. }
  assert (Hmean : mean se = Finite (Rmean se))
    by (destruct se; [congruence|reflexivity]).
  do 3 eexists. split; [reflexivity|]. split; [reflexivity|].
  rewrite Hmean. apply sqrt_interval_around.
  - apply Rmean_nonneg; [assumption|apply squares_nonneg].
  - unfold sem. destruct (length se <? 2)%nat; [now left|right; eauto].
Qed.

End EvaluatorMore.

Lemma evaluator_input_errors_witness :
  rmse [40] Examples.y_test3 = Raise ValueError /\
  (length [40] <> 1%nat ->
   @confidence_interval Examples.t2 [40] Examples.y_test3
   = Raise ValueError) /\
  (forall p, [40] = [p] ->
   @confidence_interval Examples.t2 [40] Examples.y_test3
   = @confidence_interval Examples.t2
       (repeat p (length Examples.y_test3)) Examples.y_test3).
Proof.
  apply (proj1 (@evaluator_input_errors Examples.t2
                  [40] Examples.y_test3)).
  simpl. lia.
Defined.

Lemma confidence_interval_around_rmse_witness :
  exists r lo hi,
    rmse Examples.y_pred3' Examples.y_test3 = Ok r /\
    @confidence_interval Examples.t2 Examples.y_pred3' Examples.y_test3
      = Ok (lo, hi) /\
    (lo = NaN \/ le64 lo (Finite r)) /\
    (hi = NaN \/ le64 (Finite r) hi).
Proof.
  apply (@confidence_interval_around_rmse Examples.t2 t2_spec
           Examples.y_pred3' Examples.y_test3).
  - reflexivity.
  - discriminate.
Defined.

(* ================================================================== *)
(** * Properties of the preprocessing and of the estimator pipeline *)

Lemma passthrough_spec : StandardScalerSpec Examples.passthrough.
Proof.
  constructor. intros X Y [= <-]. split; [|split].
  - unfold shape0. simpl. apply length_map.
  - simpl. unfold df_shape1. simpl. now rewrite length_map, length_seq.
  - unfold rectangular. simpl. unfold df_shape1. simpl.
    apply Forall_forall. intros row Hrow.
    apply in_map_iff in Hrow as (r & <- & _).
    now rewrite !length_map.
Qed.

Lemma get_column_indices_found (X : DataFrame) (key : list string) :
  NoDup (columns X) -> incl key (columns X) ->
  _get_column_indices X key = Ok (map (index_of (columns X)) key).
Proof.
  intros Hnd. induction key as [|k key IH]; intros Hincl; simpl.
  - reflexivity.
  - destruct (get_locs_index_of k _ Hnd (Hincl k (or_introl eq_refl)))
      as [-> _].
    rewrite IH; [reflexivity|]. intros c Hc. apply Hincl. now right.
Qed.

Lemma get_column_indices_raises (X : DataFrame) (key : list string)
  (e : exception) :
  _get_column_indices X key = Raise e -> e = ValueError.
Proof.
  induction key as [|k key IH]; simpl; [discriminate|].
  destruct (get_locs k (columns X) 0) as [|j [|j' l]]; try congruence.
  destruct (_get_column_indices X key); simpl; [discriminate|].
  intros [= <-]. now apply IH.
Qed.

Lemma get_column_indices_absent (X : DataFrame) (k : string) :
  ~ In k (columns X) -> _get_column_indices X [k] = Raise ValueError.
Proof. intros H. simpl. now rewrite get_locs_absent. Qed.

Lemma nth_error_combine {A B : Type} (l1 : list A) (l2 : list B) (i : nat)
  (a : A) (b : B) :
  nth_error l1 i = Some a -> nth_error l2 i = Some b ->
  nth_error (combine l1 l2) i = Some (a, b).
Proof.
  revert l2 i. induction l1 as [|x l1 IH]; intros [|y l2] [|i]; simpl;
    try discriminate.
  - now intros [= ->] [= ->].
  - apply IH.
Qed.

(** The adapter inside the column transformer, on the column it is given. *)
Lemma fit_transform_valid {M : Libm} (self : LogTransformer)
  (X : DataFrame) :
  all_finite (to_numpy X) = true ->
  (1 <= length (values X))%nat -> (1 <= df_shape1 X)%nat ->
  fit_transform self X = Ok (ufunc Np.log (to_numpy X)).
Proof.
  intros Hfin Hrows Hcols. unfold fit_transform.
  rewrite (transform_accepted self X (to_numpy X) Hfin Hrows Hcols).
  simpl. now rewrite Nat.eqb_refl.
Qed.

Lemma fit_transform_Ok {M : Libm} (self : LogTransformer) (X : DataFrame)
  (Y : ndarray) :
  fit_transform self X = Ok Y -> Y = ufunc Np.log (to_numpy X).
Proof.
  unfold fit_transform. rewrite transform_fit.
  destruct (check_array (to_numpy X)) as [X'|e] eqn:Hcheck; [|discriminate].
  apply check_array_Ok in Hcheck as [-> _]. cbn [bind].
  destruct (df_shape1 X =? shape1 (to_numpy X))%nat; [|discriminate].
  now intros [= <-].
Qed.

Section PipelineProperties.

Context {M : Libm} {S : StandardScaler} {L : LibSVM}.

(** The preprocessing on a table with unique labels, the labels the
    pipeline was set up with, one of them "age": the scaler on the other
    columns (when there are any), the adapter on "age", side by side. *)
Lemma preprocessing_unfold (X_train X : DataFrame) :
  columns X = columns X_train ->
  NoDup (columns X) ->
  In "age"%string (columns X) ->
  ColumnTransformer_fit_transform (preprocessing_pipeline X_train) X
  = match normal_features X with
    | [] => fit_transform __init__ (columns_of X log_features)
    | _ =>
        Ys <- scaler_fit_transform (columns_of X (normal_features X)) ;;
        Ls <- fit_transform __init__ (columns_of X log_features) ;;
        hstack2 Ys Ls
    end.
Proof.
  intros Hcols Hnd Hage.
  assert (Hnf : normal_features X_train = normal_features X)
    by (unfold normal_features; now rewrite Hcols).
  assert (Hincl : incl (normal_features X) (columns X)).
  { intros c Hc. unfold normal_features in Hc.
    now apply filter_In in Hc as [Hc _]. }
  assert (Hlog : incl log_features (columns X)).
  { intros c [<-|[]]. assumption. }
  unfold ColumnTransformer_fit_transform, preprocessing_pipeline.
  cbn [_validate_column_callables step_columns]. rewrite Hnf.
  rewrite (get_column_indices_found X _ Hnd Hincl).
  rewrite (get_column_indices_found X _ Hnd Hlog).
  cbn [bind _fit_transform_steps step_fit_transform].
  unfold columns_of.
  destruct (normal_features X) as [|c cs]; cbn [map].
  - cbn [log_features map].
    destruct (fit_transform __init__ _) as [Ls|e]; reflexivity.
  - cbn [log_features map].
    destruct (scaler_fit_transform _) as [Ys|e]; [|reflexivity].
    cbn [bind].
    destruct (fit_transform __init__ _) as [Ls|e]; reflexivity.
Qed.

Lemma preprocessing_unfold_normal (X_train X : DataFrame) :
  columns X = columns X_train ->
  NoDup (columns X) ->
  In "age"%string (columns X) ->
  normal_features X <> [] ->
  ColumnTransformer_fit_transform (preprocessing_pipeline X_train) X
  = (Ys <- scaler_fit_transform (columns_of X (normal_features X)) ;;
     Ls <- fit_transform __init__ (columns_of X log_features) ;;
     hstack2 Ys Ls).
Proof.
  intros Hcols Hnd Hage Hne.
  rewrite (preprocessing_unfold X_train X Hcols Hnd Hage).
  destruct (normal_features X); [congruence|reflexivity].
Qed.

(** A table without the column "age".  The preprocessing raises
    [ValueError] before anything is fitted, whatever the other columns. *)
Theorem preprocessing_missing_age (X_train X : DataFrame) :
  ~ In "age"%string (columns X) ->
  ColumnTransformer_fit_transform (preprocessing_pipeline X_train) X
  = Raise ValueError.
Proof.
  intros Hage.
  unfold ColumnTransformer_fit_transform, preprocessing_pipeline.
  cbn [_validate_column_callables step_columns].
  destruct (_get_column_indices X (normal_features X_train)) as [idx|e]
    eqn:Hidx.
  - cbn [bind]. unfold log_features.
    now rewrite (get_column_indices_absent X "age" Hage).
  - apply get_column_indices_raises in Hidx. now subst e.
Qed.

End PipelineProperties.

Lemma preprocessing_missing_age_witness :
  @ColumnTransformer_fit_transform
     (@preprocessing_pipeline Examples.rounding Examples.passthrough
        Examples.no_age)
     Examples.no_age
  = Raise ValueError.
Proof.
  apply (@preprocessing_missing_age Examples.rounding Examples.passthrough
           Examples.no_age Examples.no_age).
  simpl. intuition discriminate.
Defined.

Lemma hstack2_Ok (A B C : ndarray) :
  hstack2 A B = Ok C ->
  shape0 A = shape0 B /\
  C = {| shape1 := shape1 A + shape1 B;
         rows := map (fun ab => (fst ab ++ snd ab)%list)
                     (combine (rows A) (rows B)) |}.
Proof.
  unfold hstack2. destruct (Nat.eqb_spec (shape0 A) (shape0 B));
    [|discriminate].
  intros [= <-]. auto.
Qed.

Lemma hstack2_row (A B C : ndarray) (i : nat) (a b : list float64) :
  hstack2 A B = Ok C ->
  nth_error (rows A) i = Some a -> nth_error (rows B) i = Some b ->
  nth_error (rows C) i = Some (a ++ b)%list.
Proof.
  intros H Ha Hb. apply hstack2_Ok in H as [_ ->]. simpl.
  rewrite nth_error_map, (nth_error_combine _ _ _ _ _ Ha Hb). reflexivity.
Qed.

(** The rows of what the adapter returns on the column "age". *)
Lemma log_column_row {M : Libm} (X : DataFrame) (i : nat)
  (row : list float64) :
  nth_error (values X) i = Some row ->
  nth_error (rows (ufunc Np.log (to_numpy (columns_of X log_features)))) i
  = Some [Np.log (nth (index_of (columns X) "age") row NaN)].
Proof.
  intros Hrow. simpl. rewrite !nth_error_map, Hrow. reflexivity.
Qed.

Lemma log_column_shape {M : Libm} (X : DataFrame) :
  shape0 (ufunc Np.log (to_numpy (columns_of X log_features)))
    = length (values X) /\
  shape1 (ufunc Np.log (to_numpy (columns_of X log_features))) = 1%nat /\
  Forall (fun row => length row = 1%nat)
         (rows (ufunc Np.log (to_numpy (columns_of X log_features)))).
Proof.
  split; [|split].
  - unfold shape0. simpl. now rewrite !length_map.
  - reflexivity.
  - simpl. apply Forall_forall. intros row Hrow.
    apply in_map_iff in Hrow as (r & <- & Hr).
    apply in_map_iff in Hr as (r' & <- & _). reflexivity.
Qed.

Lemma normal_features_length (X : DataFrame) :
  NoDup (columns X) -> In "age"%string (columns X) ->
  S (length (normal_features X)) = length (columns X).
Proof.
  intros Hnd Hage.
  pose proof (filter_out_label "age" (columns X) Hnd Hage) as Hp.
  apply Permutation_length in Hp.
  rewrite length_app in Hp. simpl in Hp.
  rewrite normal_features_filter. lia.
Qed.

Section PipelineShape.

Context {M : Libm} {S : StandardScaler} (Spec : StandardScalerSpec S).

(** What the preprocessing returns.  On a table with unique
    labels, the labels the pipeline was set up with, "age" and at least one
    other column, at least one row and finite ages, and given that the
    scaler returns [Ys] on the other columns: the preprocessing returns an
    array with the rows and the number of columns of the table; its
    columns are those of [Ys], in the order of the table, followed by one
    last column that holds the logarithm of "age". *)
Theorem preprocessing_fit_transform (X_train X : DataFrame) (Ys : ndarray) :
  columns X = columns X_train ->
  NoDup (columns X) ->
  In "age"%string (columns X) ->
  normal_features X <> [] ->
  (1 <= length (values X))%nat ->
  all_finite (to_numpy (columns_of X log_features)) = true ->
  scaler_fit_transform (columns_of X (normal_features X)) = Ok Ys ->
  exists Xt,
    ColumnTransformer_fit_transform (preprocessing_pipeline X_train) X
      = Ok Xt /\
    shape0 Xt = length (values X) /\
    shape1 Xt = length (columns X) /\
    rectangular Xt /\
    (forall i row, nth_error (values X) i = Some row ->
       item Xt i (length (columns X) - 1)
       = Some (Np.log (nth (index_of (columns X) "age") row NaN))) /\
    (forall i j, (j < length (normal_features X))%nat ->
       item Xt i j = item Ys i j).
Proof.
  intros Hcols Hnd Hage Hnormal Hrows Hfin HYs.
  pose proof (normal_features_length X Hnd Hage) as Hlen.
  destruct (scaler_shape _ _ HYs) as (Hs0 & Hs1 & Hrect).
  destruct (iloc_columns_rows X
              (map (index_of (columns X)) (normal_features X))) as [Hr _].
  fold (columns_of X (normal_features X)) in Hr. rewrite Hr in Hs0.
  assert (Hs1' : shape1 Ys = length (normal_features X)).
  { rewrite Hs1. unfold df_shape1, columns_of. simpl.
    now rewrite !length_map. }
  destruct (log_column_shape X) as (Hl0 & Hl1 & Hlrows).
  set (Ls := ufunc Np.log (to_numpy (columns_of X log_features))) in *.
  assert (HLs : fit_transform __init__ (columns_of X log_features) = Ok Ls).
  { apply fit_transform_valid; [assumption| |unfold df_shape1; simpl; lia].
    destruct (iloc_columns_rows X
                (map (index_of (columns X)) log_features)) as [H _].
    fold (columns_of X log_features) in H. lia. }
  assert (Hlsrow : forall i row, nth_error (values X) i = Some row ->
            nth_error (rows Ls) i
            = Some [Np.log (nth (index_of (columns X) "age") row NaN)])
    by (intros; now apply log_column_row).
  clearbody Ls.
  assert (Hstack : hstack2 Ys Ls
            = Ok {| shape1 := shape1 Ys + shape1 Ls;
                    rows := map (fun ab => (fst ab ++ snd ab)%list)
                                (combine (rows Ys) (rows Ls)) |}).
  { unfold hstack2. now rewrite Hs0, Hl0, Nat.eqb_refl. }
  eexists. split.
  { rewrite (preprocessing_unfold_normal X_train X Hcols Hnd Hage Hnormal).
    rewrite HYs. cbn [bind]. rewrite HLs. cbn [bind]. exact Hstack. }
  unfold shape0 in *.
  split; [|split; [|split; [|split]]].
  - simpl. rewrite length_map, length_combine, Hs0, Hl0. apply Nat.min_id.
  - simpl. rewrite Hs1', Hl1. lia.
  - unfold rectangular. simpl. apply Forall_forall. intros row Hrow.
    apply in_map_iff in Hrow as ([ys ls] & <- & Hin). simpl.
    rewrite length_app.
    unfold rectangular in Hrect. rewrite Forall_forall in Hrect.
    rewrite Forall_forall in Hlrows.
    rewrite (Hrect ys (in_combine_l _ _ _ _ Hin)).
    rewrite (Hlrows ls (in_combine_r _ _ _ _ Hin)). now rewrite Hl1.
  - intros i row Hrow.
    assert (Hi : (i < length (rows Ys))%nat).
    { rewrite Hs0. apply nth_error_Some. congruence. }
    destruct (nth_error (rows Ys) i) as [ys|] eqn:Hys;
      [|apply nth_error_None in Hys; lia].
    pose proof (Hlsrow i row Hrow) as Hls.
    unfold item.
    rewrite (hstack2_row _ _ _ i ys _ Hstack Hys Hls).
    assert (Hylen : length ys = length (normal_features X)).
    { unfold rectangular in Hrect. rewrite Forall_forall in Hrect.
      rewrite (Hrect ys (nth_error_In _ _ Hys)). exact Hs1'. }
    replace (length (columns X) - 1)%nat with (length ys) by lia.
    rewrite nth_error_app2 by lia. now rewrite Nat.sub_diag.
  - intros i j Hj. unfold item. simpl.
    rewrite nth_error_map.
    destruct (nth_error (rows Ys) i) as [ys|] eqn:Hys.
    + assert (Hi : (i < length (values X))%nat).
      { rewrite <- Hs0. apply nth_error_Some. congruence. }
      destruct (nth_error (values X) i) as [row|] eqn:Hrow;
        [|apply nth_error_None in Hrow; lia].
      pose proof (Hlsrow i row Hrow) as Hls.
      rewrite (nth_error_combine _ _ _ _ _ Hys Hls). simpl.
      apply nth_error_app1.
      unfold rectangular in Hrect. rewrite Forall_forall in Hrect.
      rewrite (Hrect ys (nth_error_In _ _ Hys)). lia.
    + assert (Hnone : nth_error (combine (rows Ys) (rows Ls)) i = None).
      { apply nth_error_None. rewrite length_combine.
        apply nth_error_None in Hys. lia. }
      now rewrite Hnone.
Qed.

End PipelineShape.

Lemma preprocessing_fit_transform_witness :
  exists Xt,
    @ColumnTransformer_fit_transform
       (@preprocessing_pipeline Examples.rounding Examples.passthrough
          Examples.features3)
       Examples.features3 = Ok Xt /\
    shape0 Xt = length (values Examples.features3) /\
    shape1 Xt = length (columns Examples.features3) /\
    rectangular Xt /\
    (forall i row, nth_error (values Examples.features3) i = Some row ->
       item Xt i (length (columns Examples.features3) - 1)
       = Some (@Np.log Examples.rounding
                 (nth (index_of (columns Examples.features3) "age")
                      row NaN))) /\
    (forall i j,
       (j < length (normal_features Examples.features3))%nat ->
       item Xt i j
       = item (to_numpy (iloc_columns
                           (columns_of Examples.features3
                              (normal_features Examples.features3))
                           (seq 0 2))) i j).
Proof.
  apply (@preprocessing_fit_transform Examples.rounding
           Examples.passthrough passthrough_spec
           Examples.features3 Examples.features3).
  - reflexivity.
  - repeat constructor; simpl; intuition discriminate.
  - simpl. auto.
  - discriminate.
  - simpl. lia.
  - reflexivity.
  - reflexivity.
Defined.

Section PipelineFit.

Context {M : Libm} {S : StandardScaler} {L : LibSVM}.

(** Whatever the preprocessing returns on a table with a zero or negative
    age holds a value that is not finite. *)
Lemma preprocessing_non_positive_age (X_train X : DataFrame) (Xt : ndarray)
  (i : nat) (row : list float64) (r : R) :
  columns X = columns X_train ->
  NoDup (columns X) ->
  In "age"%string (columns X) ->
  nth_error (values X) i = Some row ->
  nth (index_of (columns X) "age") row NaN = Finite r ->
  r <= 0 ->
  ColumnTransformer_fit_transform (preprocessing_pipeline X_train) X = Ok Xt ->
  all_finite Xt = false.
Proof.
  intros Hcols Hnd Hage Hrow Hr Hle.
  rewrite (preprocessing_unfold X_train X Hcols Hnd Hage).
  pose proof (log_column_row X i row Hrow) as Hls. rewrite Hr in Hls.
  destruct (log_non_positive r Hle) as [_ Hnf].
  set (v := Np.log (Finite r)) in *.
  destruct (normal_features X) as [|c cs].
  - intros HLs. apply fit_transform_Ok in HLs. subst Xt.
    apply all_finite_false. exists [v], v.
    split; [eapply nth_error_In; eauto|]. split; [now left|assumption].
  - destruct (scaler_fit_transform _) as [Ys|e]; [|discriminate].
    cbn [bind].
    destruct (fit_transform __init__ _) as [Ls|e] eqn:HLs; [|discriminate].
    cbn [bind]. apply fit_transform_Ok in HLs. subst Ls. intros Hstack.
    pose proof (hstack2_Ok _ _ _ Hstack) as [Hshape _].
    destruct (log_column_shape X) as (Hl0 & _). rewrite Hl0 in Hshape.
    assert (Hi : (i < length (rows Ys))%nat).
    { unfold shape0 in Hshape. rewrite Hshape.
      apply nth_error_Some. congruence. }
    destruct (nth_error (rows Ys) i) as [ys|] eqn:Hys;
      [|apply nth_error_None in Hys; lia].
    pose proof (hstack2_row _ _ _ i ys _ Hstack Hys Hls) as Hxt.
    apply all_finite_false. exists (ys ++ [v])%list, v.
    split; [eapply nth_error_In; eauto|].
    split; [apply in_or_app; right; now left|assumption].
Qed.

(** With finite, positive ages and finite targets, one per row, the fit
    reaches libsvm with the preprocessed array as soon as the scaler
    returns a finite array. *)
Lemma svm_reg_pipeline_fit_reaches_libsvm (X_train : DataFrame) (p : params)
  (X : DataFrame) (y : list float64) (Xt : ndarray) :
  ColumnTransformer_fit_transform (preprocessing_pipeline X_train) X = Ok Xt ->
  all_finite Xt = true ->
  (1 <= shape0 Xt)%nat -> (1 <= shape1 Xt)%nat ->
  forallb isfinite y = true ->
  shape0 Xt = length y ->
  svm_reg_pipeline_fit X_train p X y = Ok (libsvm_train p Xt y).
Proof.
  intros HXt Hfin Hrows Hcols Hy Hlen.
  unfold svm_reg_pipeline_fit. rewrite HXt. cbn [bind].
  unfold SVR_fit. rewrite (check_array_accepts Xt Hfin Hrows Hcols).
  cbn [bind]. now rewrite Hy, Hlen, Nat.eqb_refl.
Qed.

End PipelineFit.

(** An array that is not finite is refused by the regressor's validation,
    and so is the fit of the pipeline whose preprocessing returned it. *)
Lemma SVR_fit_not_finite {L : LibSVM} (p : params) (Y : ndarray)
  (y : list float64) :
  all_finite Y = false -> SVR_fit p Y y = Raise ValueError.
Proof. intros Hnf. unfold SVR_fit, check_array. now rewrite Hnf. Qed.

Section NonPositive.

Context {M : Libm} {S : StandardScaler} {L : LibSVM}.

(** A zero or negative age does not reach the regressor silently.
    On a table with unique labels, the labels the pipeline was set up with,
    whose column "age" holds a zero or a negative number in some row:
    fitting the pipeline raises; and when the preprocessing returns, what it
    returns is not finite and the error is the [ValueError] of the
    regressor's input validation. *)
Theorem svm_reg_pipeline_fit_non_positive_age (X_train : DataFrame)
  (p : params) (X : DataFrame) (y : list float64)
  (i : nat) (row : list float64) (r : R) :
  columns X = columns X_train ->
  NoDup (columns X) ->
  In "age"%string (columns X) ->
  nth_error (values X) i = Some row ->
  nth (index_of (columns X) "age") row NaN = Finite r ->
  r <= 0 ->
  raises (svm_reg_pipeline_fit X_train p X y) /\
  (forall Xt,
     ColumnTransformer_fit_transform (preprocessing_pipeline X_train) X
       = Ok Xt ->
     all_finite Xt = false /\
     svm_reg_pipeline_fit X_train p X y = Raise ValueError).
Proof.
  intros Hcols Hnd Hage Hrow Hr Hle.
  assert (Hpre : forall Xt,
     ColumnTransformer_fit_transform (preprocessing_pipeline X_train) X
       = Ok Xt ->
     all_finite Xt = false /\
     svm_reg_pipeline_fit X_train p X y = Raise ValueError).
  { intros Xt HXt.
    pose proof (preprocessing_non_positive_age X_train X Xt i row r
                  Hcols Hnd Hage Hrow Hr Hle HXt) as Hnf.
    split; [assumption|].
    unfold svm_reg_pipeline_fit. rewrite HXt. cbn [bind].
    unfold SVR_fit, check_array. now rewrite Hnf. }
  split; [|assumption].
  unfold svm_reg_pipeline_fit.
  destruct (ColumnTransformer_fit_transform _ X) as [Xt|e] eqn:HXt.
  - exists ValueError. destruct (Hpre Xt eq_refl) as [_ H].
    unfold svm_reg_pipeline_fit in H. now rewrite HXt in H.
  - now exists e.
Qed.

(** C6, as the code has it.  A zero or negative value does not make the
    log-transform stage raise, and it does not reach the model silently
    either.

    The stage: on an array of finite numbers with the fitted column count,
    [transform] returns, with [-inf] in the place of a zero and [nan] in the
    place of a negative number; the array it returns is no longer finite,
    and the regressor refuses it with the [ValueError] of its input
    validation.

    The notebook's pipeline: on a table with unique labels, the labels the
    pipeline was set up with, finite ages, and a zero or negative age in
    some row, the adapter returns the column of logarithms with [-inf] or
    [nan] in that row; whatever the preprocessing then returns is not
    finite, and fitting the pipeline raises: the [ValueError] of the
    regressor's input validation once the preprocessing has returned, which
    it has as soon as the scaler returns on the other columns (or there are
    none). *)
Theorem transform_non_positive (self : LogTransformer) (df : DataFrame)
  (X : ndarray) (i j : nat) (r : R)
  (X_train : DataFrame) (p : params) (T : DataFrame) (y : list float64)
  (k : nat) (row : list float64) (a : R) :
  (rectangular X ->
   shape1 X = df_shape1 df ->
   all_finite X = true ->
   item X i j = Some (Finite r) ->
   r <= 0 ->
   exists Y,
     transform (fit self df) X = Ok Y /\
     item Y i j = Some (if Req_dec_T r 0 then NegInf else NaN) /\
     all_finite Y = false /\
     SVR_fit p Y y = Raise ValueError) /\
  (columns T = columns X_train ->
   NoDup (columns T) ->
   In "age"%string (columns T) ->
   all_finite (to_numpy (columns_of T log_features)) = true ->
   nth_error (values T) k = Some row ->
   nth (index_of (columns T) "age") row NaN = Finite a ->
   a <= 0 ->
   (exists Y,
      fit_transform __init__ (columns_of T log_features) = Ok Y /\
      item Y k 0 = Some (if Req_dec_T a 0 then NegInf else NaN)) /\
   raises (svm_reg_pipeline_fit X_train p T y) /\
   (forall Xt,
      ColumnTransformer_fit_transform (preprocessing_pipeline X_train) T
        = Ok Xt ->
      all_finite Xt = false /\
      svm_reg_pipeline_fit X_train p T y = Raise ValueError) /\
   (StandardScalerSpec S ->
    (normal_features T = [] \/
     exists Ys,
       scaler_fit_transform (columns_of T (normal_features T)) = Ok Ys) ->
    svm_reg_pipeline_fit X_train p T y = Raise ValueError)).
Proof.
  split.
  - intros Hrect Hcols Hfin Hitem Hr.
    destruct (transform_non_positive_item self df X i j r
                Hrect Hcols Hfin Hitem Hr) as (Y & HY & Hit & Hnf).
    exists Y. repeat (split; [assumption|]).
    now apply SVR_fit_not_finite.
  - intros Hcols Hnd Hage Hfin Hrow Ha Hle.
    assert (Hdown : forall Xt,
      ColumnTransformer_fit_transform (preprocessing_pipeline X_train) T
        = Ok Xt ->
      all_finite Xt = false /\
      svm_reg_pipeline_fit X_train p T y = Raise ValueError).
    { intros Xt HXt.
      assert (Hnf : all_finite Xt = false)
        by now apply (preprocessing_non_positive_age X_train T Xt k row a).
      split; [assumption|].
      unfold svm_reg_pipeline_fit. rewrite HXt. cbn [bind].
      now apply SVR_fit_not_finite. }
    set (Ls := ufunc Np.log (to_numpy (columns_of T log_features))).
    assert (HLs : fit_transform __init__ (columns_of T log_features)
                  = Ok Ls).
    { apply fit_transform_valid; [assumption| |unfold df_shape1; simpl; lia].
      destruct (iloc_columns_rows T
                  (map (index_of (columns T)) log_features)) as [H _].
      fold (columns_of T log_features) in H. rewrite H.
      assert (Hk : (k < length (values T))%nat)
        by (apply nth_error_Some; congruence).
      lia. }
    split; [|split; [|split; [exact Hdown|]]].
    + exists Ls. split; [exact HLs|].
      unfold item, Ls. rewrite (log_column_row T k row Hrow), Ha.
      cbn [nth_error]. f_equal. now apply log_non_positive.
    + destruct (ColumnTransformer_fit_transform
                  (preprocessing_pipeline X_train) T) as [Xt|e] eqn:HXt.
      * exists ValueError. now destruct (Hdown Xt eq_refl).
      * exists e. unfold svm_reg_pipeline_fit. now rewrite HXt.
    + intros Spec Hscaler.
      assert (Hreturns : exists Xt,
                ColumnTransformer_fit_transform
                  (preprocessing_pipeline X_train) T = Ok Xt).
      { rewrite (preprocessing_unfold X_train T Hcols Hnd Hage).
        destruct Hscaler as [Hnone|(Ys & HYs)].
        - rewrite Hnone. now exists Ls.
        - destruct (normal_features T) as [|c cs] eqn:Hnf; [now exists Ls|].
          rewrite HYs. cbn [bind]. rewrite HLs. cbn [bind].
          destruct (scaler_shape _ _ HYs) as (Hs0 & _).
          destruct (iloc_columns_rows T
                      (map (index_of (columns T)) (c :: cs))) as [Hr _].
          fold (columns_of T (c :: cs)) in Hr. rewrite Hr in Hs0.
          destruct (log_column_shape T) as (Hl0 & _). fold Ls in Hl0.
          unfold hstack2. rewrite Hs0, Hl0, Nat.eqb_refl. eauto. }
      destruct Hreturns as (Xt & HXt). now destruct (Hdown Xt HXt).
Qed.

End NonPositive.

Lemma svm_reg_pipeline_fit_non_positive_age_witness :
  raises (@svm_reg_pipeline_fit Examples.rounding Examples.passthrough
            Examples.recorder
            Examples.features3_zero_age Examples.some_params
            Examples.features3_zero_age [Finite 80; Finite 40]) /\
  (forall Xt,
     @ColumnTransformer_fit_transform
        (@preprocessing_pipeline Examples.rounding Examples.passthrough
           Examples.features3_zero_age)
        Examples.features3_zero_age = Ok Xt ->
     all_finite Xt = false /\
     @svm_reg_pipeline_fit Examples.rounding Examples.passthrough
        Examples.recorder
        Examples.features3_zero_age Examples.some_params
        Examples.features3_zero_age [Finite 80; Finite 40]
     = Raise ValueError).
Proof.
  apply (@svm_reg_pipeline_fit_non_positive_age
           Examples.rounding Examples.passthrough Examples.recorder
           Examples.features3_zero_age Examples.some_params
           Examples.features3_zero_age [Finite 80; Finite 40]
           1%nat [Finite 332; Finite 0; Finite 228] 0).
  - reflexivity.
  - repeat constructor; simpl; intuition discriminate.
  - simpl. auto.
  - reflexivity.
  - reflexivity.
  - lra.
Defined.

Lemma transform_non_positive_witness :
  (exists Y,
     @transform Examples.rounding (fit __init__ Examples.age_df)
       Examples.with_zero = Ok Y /\
     item Y 1 0 = Some (if Req_dec_T (-1) 0 then NegInf else NaN) /\
     all_finite Y = false /\
     @SVR_fit Examples.recorder Examples.some_params Y [Finite 80; Finite 40]
     = Raise ValueError) /\
  (exists Y,
     @fit_transform Examples.rounding __init__
       (columns_of Examples.features3_zero_age log_features) = Ok Y /\
     item Y 1 0 = Some (if Req_dec_T 0 0 then NegInf else NaN)) /\
  raises (@svm_reg_pipeline_fit Examples.rounding Examples.passthrough
            Examples.recorder Examples.features3_zero_age
            Examples.some_params Examples.features3_zero_age
            [Finite 80; Finite 40]) /\
  @svm_reg_pipeline_fit Examples.rounding Examples.passthrough
     Examples.recorder Examples.features3_zero_age
     Examples.some_params Examples.features3_zero_age
     [Finite 80; Finite 40]
  = Raise ValueError.
Proof.
  destruct (@transform_non_positive Examples.rounding Examples.passthrough
              Examples.recorder __init__ Examples.age_df Examples.with_zero
              1%nat 0%nat (-1)
              Examples.features3_zero_age Examples.some_params
              Examples.features3_zero_age [Finite 80; Finite 40]
              1%nat [Finite 332; Finite 0; Finite 228] 0)
    as [Hstage Hpipeline].
  split.
  - apply Hstage.
    + repeat constructor.
    + reflexivity.
    + reflexivity.
    + reflexivity.
    + lra.
  - destruct Hpipeline as (HY & Hraises & _ & Hvalue).
    + reflexivity.
    + repeat constructor; simpl; intuition discriminate.
    + simpl. auto.
    + reflexivity.
    + reflexivity.
    + reflexivity.
    + lra.
    + split; [assumption|]. split; [assumption|].
      apply Hvalue; [exact passthrough_spec|].
      right. eexists. reflexivity.
Defined.

(** C6, as stated, fails on a table with a zero age: the value is not
    propagated into the model silently.  The preprocessing returns an array
    with [-inf] in it, and the fit of the pipeline then raises [ValueError];
    no model is fitted. *)
Lemma transform_non_positive_raised :
  exists Xt,
    @ColumnTransformer_fit_transform
       (@preprocessing_pipeline Examples.rounding Examples.passthrough
          Examples.features3_zero_age)
       Examples.features3_zero_age = Ok Xt /\
    item Xt 1 2 = Some NegInf /\
    @svm_reg_pipeline_fit Examples.rounding Examples.passthrough
       Examples.recorder Examples.features3_zero_age Examples.some_params
       Examples.features3_zero_age [Finite 80; Finite 40]
    = Raise ValueError.
Proof.
  exists {| shape1 := 3;
            rows := [[Finite 540; Finite 162;
                      @Np.log Examples.rounding (Finite 28)];
                     [Finite 332; Finite 228;
                      @Np.log Examples.rounding (Finite 0)]] |}.
  assert (Hzero : @Np.log Examples.rounding (Finite 0) = NegInf).
  { destruct (@log_non_positive Examples.rounding 0) as [H _]; [lra|].
    rewrite H. destruct (Req_dec_T 0 0); [reflexivity|lra]. }
  split; [reflexivity|]. split.
  - unfold item. cbn [rows nth_error]. now rewrite Hzero.
  - unfold svm_reg_pipeline_fit.
    change (@ColumnTransformer_fit_transform
              (@preprocessing_pipeline Examples.rounding Examples.passthrough
                 Examples.features3_zero_age)
              Examples.features3_zero_age)
      with (Ok {| shape1 := 3;
                  rows := [[Finite 540; Finite 162;
                            @Np.log Examples.rounding (Finite 28)];
                           [Finite 332; Finite 228;
                            @Np.log Examples.rounding (Finite 0)]] |}).
    cbn [bind]. apply SVR_fit_not_finite.
    unfold all_finite. cbn [rows forallb]. rewrite Hzero.
    cbn [isfinite andb]. now rewrite !andb_false_r.
Qed.

Lemma log_positive_isfinite {M : Libm} (r : R) :
  0 < r -> isfinite (Np.log (Finite r)) = true.
Proof.
  intros Hr. simpl. destruct (Rlt_dec 0 r); [reflexivity|contradiction].
Qed.

(** With positive ages the same pipeline is fitted: the regressor is
    trained on the two scaled columns and the logarithm of the age. *)
Lemma svm_reg_pipeline_fit_example :
  @svm_reg_pipeline_fit Examples.rounding Examples.passthrough Examples.recorder
     Examples.features3 Examples.some_params
     Examples.features3 [Finite 80; Finite 40]
  = Ok (Examples.some_params,
        {| shape1 := 3;
           rows := [[Finite 540; Finite 162;
                     @Np.log Examples.rounding (Finite 28)];
                    [Finite 332; Finite 228;
                     @Np.log Examples.rounding (Finite 270)]] |},
        [Finite 80; Finite 40]).
Proof.
  apply (@svm_reg_pipeline_fit_reaches_libsvm
           Examples.rounding Examples.passthrough Examples.recorder).
  - reflexivity.
  - unfold all_finite. cbn [rows forallb isfinite andb].
    rewrite !log_positive_isfinite by lra. reflexivity.
  - vm_compute. lia.
  - vm_compute. lia.
  - reflexivity.
  - reflexivity.
Qed.
